(** * The tiered storage manager of the URL shortener (storage-manager.js)

    A shallow embedding of [class StorageManager]: the three tiers (the
    in-memory [Map], the IndexedDB object stores and [localStorage]), the
    operations that move URL records, settings and cache entries between
    them, and the properties of those operations.

    Conventions of the embedding.
    - A JavaScript value is a [value]; an object is a finite map from
      property names to values.  Numbers are the integers ([Z]) that the
      manager stores: ids, timestamps, counters and sizes.
    - A string is a sequence of code units below 256.
    - [async]/[await] is sequential composition: the operations of one
      manager never interleave.
    - [Date.now()] is the argument [now] of the operation that reads it.
    - What the host decides (the text [JSON.stringify] produces, whether
      IndexedDB or [localStorage] refuses a write) is a [host]; every
      theorem holds for all hosts. *)

From stdpp Require Import gmap strings list fin_maps pretty sorting.
From Stdlib Require Import ZArith Lia Ascii.

Set Warnings "-register-all,-clear-no-such-hyp".
Open Scope Z_scope.

(** ** JavaScript values *)

Inductive value : Type :=
  | VNull
  | VBool (b : bool)
  | VNum (n : Z)
  | VStr (s : string)
  | VArr (l : list value)
  | VObj (m : gmap string value).

(** ToBoolean.  A property that is absent reads as [undefined], which is
    falsy. *)
Definition truthy (v : value) : bool :=
  match v with
  | VNull => false
  | VBool b => b
  | VNum n => negb (n =? 0)
  | VStr s => negb (String.eqb s EmptyString)
  | VArr _ => true
  | VObj _ => true
  end.

Definition truthy_prop (o : option value) : bool :=
  match o with
  | Some v => truthy v
  | None => false
  end.

(** [{...data}]: the own enumerable properties of [data].  An array
    spreads to its indices, a string to its characters, any other
    primitive to nothing. *)
Definition indexed (l : list value) : gmap string value :=
  list_to_map (imap (λ i x, (pretty (Z.of_nat i), x)) l).

Fixpoint chars (s : string) : list value :=
  match s with
  | EmptyString => []
  | String c s' => VStr (String c EmptyString) :: chars s'
  end.

Definition spread (data : value) : gmap string value :=
  match data with
  | VObj m => m
  | VArr l => indexed l
  | VStr s => indexed (chars s)
  | _ => ∅
  end.

(** ** String helpers used by [compressData] *)

Definition dquote : string := String "034"%char EmptyString.

(** The class [\s] restricted to the code units of the model. *)
Definition is_space (c : ascii) : bool :=
  let n := nat_of_ascii c in
  ((9 <=? n)%nat && (n <=? 13)%nat) || (n =? 32)%nat || (n =? 160)%nat.

(** [.replace(/\s+/g, ' ')]: [in_run] records that the previous character
    was whitespace and has already produced its single space. *)
Fixpoint collapse_spaces (in_run : bool) (s : string) : string :=
  match s with
  | EmptyString => EmptyString
  | String c s' =>
      if is_space c
      then (if in_run then collapse_spaces true s'
            else String " "%char (collapse_spaces true s'))
      else String c (collapse_spaces false s')
  end.

(** [.replace(/pat/g, rep)] for a literal pattern: matches are taken left
    to right and do not overlap; [skip] counts the characters of the
    current match that remain to be consumed. *)
Fixpoint replace_from (pat rep : string) (skip : nat) (s : string) : string :=
  match s with
  | EmptyString => EmptyString
  | String c s' =>
      match skip with
      | S n => replace_from pat rep n s'
      | O =>
          if String.prefix pat s && negb (String.eqb pat EmptyString)
          then rep +:+ replace_from pat rep (String.length pat - 1) s'
          else String c (replace_from pat rep O s')
      end
  end.

Definition replace_all (pat rep s : string) : string := replace_from pat rep O s.

Fixpoint trim_start (s : string) : string :=
  match s with
  | EmptyString => EmptyString
  | String c s' => if is_space c then trim_start s' else s
  end.

Definition trim (s : string) : string :=
  String.rev (trim_start (String.rev (trim_start s))).

(** The chain of replacements of [compressData] (lines 506-510). *)
Definition strip_whitespace (jsonString : string) : string :=
  trim (replace_all (dquote +:+ ", " +:+ dquote) (dquote +:+ "," +:+ dquote)
         (replace_all (dquote +:+ ": " +:+ dquote) (dquote +:+ ":" +:+ dquote)
           (collapse_spaces false jsonString))).

(** ** Keys *)

(** The keys the manager uses in IndexedDB are numbers (URL ids, log ids)
    and strings; both are valid IndexedDB keys. *)
Inductive key : Type :=
  | KNum (n : Z)
  | KStr (s : string).

Global Instance key_eq_dec : EqDecision key.
Proof. solve_decision. Defined.

Global Instance key_countable : Countable key.
Proof.
  refine (inj_countable'
            (λ k, match k with KNum n => inl n | KStr s => inr s end)
            (λ x, match x with inl n => KNum n | inr s => KStr s end) _).
  by intros [].
Defined.

(** Evaluation of a key path on a value that was read from a property:
    anything that is not a number or a string is not a key here. *)
Definition as_key (o : option value) : option key :=
  match o with
  | Some (VNum n) => Some (KNum n)
  | Some (VStr s) => Some (KStr s)
  | _ => None
  end.

Definition key_value (k : key) : value :=
  match k with
  | KNum n => VNum n
  | KStr s => VStr s
  end.

(** What IndexedDB accepts as a key among the values of the model: a
    number, a string, or an array of keys.  [null], a boolean and an
    object are not keys, and a request made with one of them throws a
    [DataError]. *)
Fixpoint valid_key (v : value) : bool :=
  match v with
  | VNum _ | VStr _ => true
  | VArr l => forallb valid_key l
  | _ => false
  end.

(** The same for an argument, which may be [undefined] ([None]). *)
Definition is_key (id : option value) : bool :=
  match id with
  | Some v => valid_key v
  | None => false
  end.

(** ** Template literals *)

Definition join (sep : string) (l : list string) : string :=
  match l with
  | [] => EmptyString
  | x :: xs => x +:+ foldr (λ y acc, sep +:+ y +:+ acc) EmptyString xs
  end.

(** ToString, as [`${v}`] applies it.  An array prints its elements
    separated by commas, with [null] printed as the empty string. *)
Fixpoint to_string (v : value) : string :=
  match v with
  | VNull => "null"
  | VBool b => if b then "true" else "false"
  | VNum n => pretty n
  | VStr s => s
  | VArr l =>
      join ","
        (map (λ x, match x with VNull => EmptyString | _ => to_string x end) l)
  | VObj _ => "[object Object]"
  end.

Definition template (o : option value) : string :=
  match o with
  | Some v => to_string v
  | None => "undefined"
  end.

Definition key_string (k : key) : string := to_string (key_value k).

(** ** A concrete [JSON.stringify]

    Used by the sample host below; the theorems do not depend on it. *)

Definition hex_digit (n : nat) : ascii :=
  ascii_of_nat (if (n <? 10)%nat then 48 + n else 87 + n).

Definition escape_char (c : ascii) : string :=
  let n := nat_of_ascii c in
  if (n =? 34)%nat then "\" +:+ dquote
  else if (n =? 92)%nat then "\\"
  else if (n =? 8)%nat then "\b"
  else if (n =? 9)%nat then "\t"
  else if (n =? 10)%nat then "\n"
  else if (n =? 12)%nat then "\f"
  else if (n =? 13)%nat then "\r"
  else if (n <? 32)%nat
       then "\u00" +:+ String (hex_digit (n / 16))
                          (String (hex_digit (n mod 16)) EmptyString)
  else String c EmptyString.

Fixpoint escape (s : string) : string :=
  match s with
  | EmptyString => EmptyString
  | String c s' => escape_char c +:+ escape s'
  end.

Definition quote (s : string) : string := dquote +:+ escape s +:+ dquote.

Fixpoint stringify (v : value) : string :=
  match v with
  | VNull => "null"
  | VBool b => if b then "true" else "false"
  | VNum n => pretty n
  | VStr s => quote s
  | VArr l => "[" +:+ join "," (map stringify l) +:+ "]"
  | VObj m =>
      "{" +:+ join ","
                (map_fold (λ k s acc, (quote k +:+ ":" +:+ s) :: acc) []
                          (stringify <$> m)) +:+ "}"
  end.

(** ** Completions and errors *)

Inductive error : Type :=
  | DatabaseNotInitialized   (* thrown by [dbOperation], line 464 *)
  | DataError                (* no valid key at the key path of the store *)
  | RequestError             (* a request's [onerror]: constraint, quota, abort *)
  | QuotaExceededError       (* [localStorage.setItem] *)
  | SyntaxError              (* [JSON.parse] *)
  | TypeError.               (* property access on [null], unserialisable data *)

(** How a piece of JavaScript ends: with a value, or by throwing. *)
Inductive completion (A : Type) : Type :=
  | Normal (a : A)
  | Throw (e : error).
Arguments Normal {A} a.
Arguments Throw {A} e.

(** [v.name] for the two names the manager reads from data it did not
    build itself, [id] and [_compressed]: reading from [null] throws, an
    object answers from its properties, and no primitive or array has
    such a property. *)
Definition get_prop (v : value) (name : string) : completion (option value) :=
  match v with
  | VNull => Throw TypeError
  | VObj m => Normal (m !! name)
  | _ => Normal None
  end.

(** ** The tiers *)

(** An item of [localStorage] is a string.  It is represented by what
    [JSON.parse] makes of it: [Json v] is the text of the value [v], and
    [Raw s] is a string [s] that is not JSON text (the empty string
    included). *)
Inductive item : Type :=
  | Json (v : value)
  | Raw (s : string).

(** The truthiness of the string itself: only the empty string is falsy,
    and no JSON text is empty. *)
Definition item_truthy (i : item) : bool :=
  match i with
  | Json _ => true
  | Raw s => negb (String.eqb s EmptyString)
  end.

Definition JSON_parse (i : item) : completion value :=
  match i with
  | Json v => Normal v
  | Raw _ => Throw SyntaxError
  end.

(** The entries the manager itself builds (lines 313, 371, 261-265). *)
Record cacheEntry : Type := CacheEntry {
  ce_key : string;
  ce_data : value;
  ce_timestamp : Z;
  ce_expiry : Z
}.

Record settingEntry : Type := SettingEntry {
  se_key : string;
  se_value : value;
  se_timestamp : Z
}.

(** The id of a log is the number [Date.now() + Math.random()]; ids are
    only compared with each other, and the model takes them from [Z]. *)
Record securityLog : Type := SecurityLog {
  log_id : Z;
  log_timestamp : Z;
  log_data : gmap string value
}.

(** The five object stores of [initDB], each keyed by its key path. *)
Record IDB : Type := Idb {
  urls : gmap key value;
  analytics : gmap key value;
  security : gmap Z securityLog;
  settings : gmap string settingEntry;
  cache_store : gmap string cacheEntry
}.

(** The manager ([db], [cache], [compressionEnabled]) together with the
    [localStorage] of the page. *)
Record world : Type := World {
  db : option IDB;
  cache : gmap string value;
  compressionEnabled : bool;
  localStorage : gmap string item
}.

Definition set_db (d : IDB) (w : world) : world :=
  World (Some d) (cache w) (compressionEnabled w) (localStorage w).
Definition set_cache (c : gmap string value) (w : world) : world :=
  World (db w) c (compressionEnabled w) (localStorage w).
Definition set_localStorage (l : gmap string item) (w : world) : world :=
  World (db w) (cache w) (compressionEnabled w) l.

(** What the environment decides.
    - [JSON_stringify v] is the text of [v], or [None] when
      [JSON.stringify] throws.
    - [idb_refuses name before after]: the write request that would take
      the database from [before] to [after] in store [name] fails (unique
      index, quota, aborted transaction) and the database stays [before].
    - [ls_refuses k i l]: [localStorage.setItem] of item [i] under key [k]
      throws when the storage holds [l]. *)
Record host : Type := Host {
  JSON_stringify : value → option string;
  idb_refuses : string → IDB → IDB → bool;
  ls_refuses : string → item → gmap string item → bool
}.

(** A browser in which nothing fails, and one whose [localStorage] is
    full. *)
Definition browser : host :=
  Host (λ v, Some (stringify v)) (λ _ _ _, false) (λ _ _ _, false).
Definition browser_ls_full : host :=
  Host (λ v, Some (stringify v)) (λ _ _ _, false) (λ _ _ _, true).

(** ** The state-and-exception monad of the manager's methods *)

Definition M (A : Type) : Type := world → completion A * world.

Definition ret {A} (a : A) : M A := λ w, (Normal a, w).
Definition throw {A} (e : error) : M A := λ w, (Throw e, w).
Definition bind {A B} (m : M A) (k : A → M B) : M B := λ w,
  match m w with
  | (Normal a, w') => k a w'
  | (Throw e, w') => (Throw e, w')
  end.
Definition lift {A} (c : completion A) : M A := λ w, (c, w).
Definition get_world : M world := λ w, (Normal w, w).
Definition put_world (w' : world) : M unit := λ _, (Normal tt, w').

(** [try { body } catch (error) { handler }]: the effects of [body] up to
    the throw stay. *)
Definition try_catch {A} (body : M A) (handler : error → M A) : M A := λ w,
  match body w with
  | (Normal a, w') => (Normal a, w')
  | (Throw e, w') => handler e w'
  end.

Notation "'let!' x ':=' m 'in' k" := (bind m (λ x, k))
  (at level 10, x binder, m at level 100, k at level 200).
Notation "m ';;' k" := (bind m (λ _, k))
  (at level 100, k at level 200, right associativity).

(** [for (const x of xs) { ... }] with the local variables of the loop in
    [acc]. *)
Fixpoint for_of {A B} (xs : list A) (acc : B) (body : B → A → M B) : M B :=
  match xs with
  | [] => ret acc
  | x :: xs' => let! acc' := body acc x in for_of xs' acc' body
  end.

(** ** IndexedDB object stores *)

(** An object store with an in-line key: its name, its key path, and where
    its records live in the database. *)
Record objectStore (K V : Type) `{Countable K} : Type := ObjectStore {
  storeName : string;
  keyPath : V → option K;
  contents : IDB → gmap K V;
  with_contents : gmap K V → IDB → IDB
}.
Arguments storeName {K V _ _} _.
Arguments keyPath {K V _ _} _ _.
Arguments contents {K V _ _} _ _.
Arguments with_contents {K V _ _} _ _ _.

Definition record_id (v : value) : option key :=
  match v with
  | VObj m => as_key (m !! "id")
  | _ => None
  end.

Definition urlsStore : objectStore key value :=
  ObjectStore key value _ _ "urls" record_id urls
    (λ m d, Idb m (analytics d) (security d) (settings d) (cache_store d)).

Definition securityStore : objectStore Z securityLog :=
  ObjectStore Z securityLog _ _ "security" (λ l, Some (log_id l)) security
    (λ m d, Idb (urls d) (analytics d) m (settings d) (cache_store d)).

Definition settingsStore : objectStore string settingEntry :=
  ObjectStore string settingEntry _ _ "settings" (λ e, Some (se_key e)) settings
    (λ m d, Idb (urls d) (analytics d) (security d) m (cache_store d)).

Definition cacheStore : objectStore string cacheEntry :=
  ObjectStore string cacheEntry _ _ "cache" (λ e, Some (ce_key e)) cache_store
    (λ m d, Idb (urls d) (analytics d) (security d) (settings d) m).

(** [index.openCursor(IDBKeyRange.upperBound(bound))]: the records whose
    indexed number is at most [bound].  Every one of them is visited; the
    order of the visit plays no role in what the callers do. *)
Definition upperBound {K V} `{Countable K}
    (index : V → Z) (bound : Z) (m : gmap K V) : list (K * V) :=
  filter (λ kv, index kv.2 ≤ bound) (map_to_list m).

(** The cursor loop of [clearExpiredCache] and [cleanupSecurityLogs]:
    [cursor.delete(); deletedCount++; cursor.continue()]. *)
Fixpoint cursor_delete {K V} `{Countable K}
    (hits : list (K * V)) (m : gmap K V) (deletedCount : nat) : gmap K V * nat :=
  match hits with
  | [] => (m, deletedCount)
  | kv :: rest => cursor_delete rest (delete kv.1 m) (S deletedCount)
  end.

(** The order of a [prev] cursor on the [timestamp] index of the security
    store: latest first, ties by descending id. *)
Definition newer (a b : securityLog) : Prop :=
  log_timestamp b < log_timestamp a
  ∨ (log_timestamp a = log_timestamp b ∧ log_id b ≤ log_id a).

Global Instance newer_dec a b : Decision (newer a b).
Proof. unfold newer. apply _. Defined.

Definition legacyKeys : list string :=
  [ "urlShortener_urls"; "secureUrlShortener_urls";
    "urlShortener_rateLimit"; "secureUrlShortener_rateLimit";
    "urlShortener_securityStats"; "secureUrlShortener_securityStats" ].

(** [hay.includes(needle)] *)
Fixpoint includes (needle hay : string) : bool :=
  match hay with
  | EmptyString => String.prefix needle hay
  | String _ hay' => String.prefix needle hay || includes needle hay'
  end.

(** Results *)
Inductive js_count : Type :=
  | undefined
  | count (n : nat).

Record optimizationResults : Type := OptimizationResults {
  cacheCleared : js_count;
  expiredEntriesRemoved : nat;
  spaceFreed : nat
}.

Record maintenanceResults : Type := MaintenanceResults {
  mr_cacheCleared : js_count;
  logsCleanedUp : nat;
  optimization : option optimizationResults
}.

(** ** The methods of [StorageManager] *)

Section Manager.
Context (h : host).

(** *** Data compression (lines 502-531) *)

Definition compressData (data : value) : value :=
  match JSON_stringify h data with
  | Some jsonString =>
      let compressed := strip_whitespace jsonString in
      VObj (<["_compressedSize" := VNum (Z.of_nat (String.length compressed))]>
           (<["_originalSize" := VNum (Z.of_nat (String.length jsonString))]>
           (<["_compressed" := VBool true]> (spread data))))
  | None => data
  end.

Definition decompressData (data : value) : value :=
  match data with
  | VObj m =>
      if truthy_prop (m !! "_compressed")
      then VObj (delete "_compressedSize"
                (delete "_originalSize" (delete "_compressed" m)))
      else data
  | _ => data
  end.

(** [this.compressionEnabled ? this.compressData(urlData) : urlData] and
    [this.compressionEnabled ? this.decompressData(data) : data]. *)
Definition on_save (enabled : bool) (urlData : value) : value :=
  if enabled then compressData urlData else urlData.
Definition on_read (enabled : bool) (data : value) : value :=
  if enabled then decompressData data else data.

(** *** [dbOperation] (lines 463-499), one definition per operation *)

Definition dbOperation_put {K V} `{Countable K}
    (st : objectStore K V) (data : V) : M unit := λ w,
  match db w with
  | None => (Throw DatabaseNotInitialized, w)
  | Some d =>
      match keyPath st data with
      | None => (Throw DataError, w)
      | Some k =>
          let d' := with_contents st (<[k := data]> (contents st d)) d in
          if idb_refuses h (storeName st) d d'
          then (Throw RequestError, w)
          else (Normal tt, set_db d' w)
      end
  end.

Definition dbOperation_get {K V} `{Countable K}
    (st : objectStore K V) (k : K) : M (option V) := λ w,
  match db w with
  | None => (Throw DatabaseNotInitialized, w)
  | Some d => (Normal (contents st d !! k), w)
  end.

(** IndexedDB lists a store in the order of its keys; the model lists it
    in the order of the map.  Nothing below depends on the order. *)
Definition dbOperation_getAll {K V} `{Countable K}
    (st : objectStore K V) : M (list V) := λ w,
  match db w with
  | None => (Throw DatabaseNotInitialized, w)
  | Some d => (Normal ((map_to_list (contents st d)).*2), w)
  end.

Definition dbOperation_delete {K V} `{Countable K}
    (st : objectStore K V) (k : K) : M unit := λ w,
  match db w with
  | None => (Throw DatabaseNotInitialized, w)
  | Some d => (Normal tt, set_db (with_contents st (delete k (contents st d)) d) w)
  end.

(** [if (this.db) { await ... }] *)
Definition if_db (m : M unit) : M unit := λ w,
  match db w with
  | Some _ => m w
  | None => (Normal tt, w)
  end.

(** *** The memory cache and [localStorage] *)

Definition cache_set (k : string) (v : value) : M unit := λ w,
  (Normal tt, set_cache (<[k := v]> (cache w)) w).

Definition cache_delete (k : string) : M unit := λ w,
  (Normal tt, set_cache (delete k (cache w)) w).

(** [localStorage.setItem(k, JSON.stringify(v))] *)
Definition setItem_stringify (k : string) (v : value) : M unit := λ w,
  match JSON_stringify h v with
  | None => (Throw TypeError, w)
  | Some _ =>
      if ls_refuses h k (Json v) (localStorage w)
      then (Throw QuotaExceededError, w)
      else (Normal tt, set_localStorage (<[k := Json v]> (localStorage w)) w)
  end.

Definition removeItem (k : string) : M unit := λ w,
  (Normal tt, set_localStorage (delete k (localStorage w)) w).

Definition backupToLocalStorage (prefix : string) (k : option value) (data : value)
  : M bool :=
  try_catch
    (let storageKey := prefix +:+ "_" +:+ template k in
     setItem_stringify storageKey data ;;
     ret true)
    (λ _, ret false).

Definition getFromLocalStorage (k : string) : M value :=
  try_catch
    (let! w := get_world in
     match localStorage w !! k with
     | Some data => if item_truthy data then lift (JSON_parse data) else ret VNull
     | None => ret VNull
     end)
    (λ _, ret VNull).

(** The loop over [localStorage.key(i)] visits every key once, in an
    order the browser chooses: here the order of the map. *)
Definition getAllFromLocalStorage (prefix : string) : M (list value) :=
  try_catch
    (let! w := get_world in
     for_of (map_to_list (localStorage w)).*1 []
       (λ items k,
          if negb (String.eqb k EmptyString) && String.prefix prefix k
          then let! data := getFromLocalStorage k in
               ret (if truthy data then items ++ [data] else items)
          else ret items))
    (λ _, ret []).

Definition removeFromLocalStorage (k : string) : M bool :=
  try_catch (removeItem k ;; ret true) (λ _, ret false).

(** *** URL management (lines 87-185) *)

Definition saveURL (urlData : value) : M bool :=
  try_catch
    (let! w := get_world in
     let compressedData := on_save (compressionEnabled w) urlData in
     if_db (dbOperation_put urlsStore compressedData) ;;
     let! id := lift (get_prop urlData "id") in
     cache_set ("url_" +:+ template id) compressedData ;;
     backupToLocalStorage "urls" id compressedData ;;
     ret true)
    (λ _, ret false).

Definition getURL (id : key) : M value :=
  try_catch
    (let cacheKey := "url_" +:+ key_string id in
     let fallback :=
       let! localData := getFromLocalStorage ("urls_" +:+ key_string id) in
       if truthy localData
       then cache_set cacheKey localData ;; ret localData
       else ret VNull in
     let! w := get_world in
     match cache w !! cacheKey with
     | Some data => ret (on_read (compressionEnabled w) data)
     | None =>
         let! found :=
           match db w with
           | Some _ => dbOperation_get urlsStore id
           | None => ret None
           end in
         match found with
         | Some data =>
             if truthy data
             then cache_set cacheKey data ;;
                  ret (on_read (compressionEnabled w) data)
             else fallback
         | None => fallback
         end
     end)
    (λ _, ret VNull).

Definition getAllURLs : M (list value) :=
  try_catch
    (let! w := get_world in
     let! fromDb :=
       match db w with
       | Some _ =>
           let! urls := dbOperation_getAll urlsStore in
           if (0 <? length urls)%nat
           then for_of urls tt
                  (λ _ url,
                     let! id := lift (get_prop url "id") in
                     cache_set ("url_" +:+ template id) url) ;;
                ret (Some (if compressionEnabled w
                           then map decompressData urls else urls))
           else ret None
       | None => ret None
       end in
     match fromDb with
     | Some urls => ret urls
     | None => getAllFromLocalStorage "urls_"
     end)
    (λ _, ret []).

(** [dbOperation('urls', 'delete', id)] with the id as the caller gave
    it.  [store.delete] throws a [DataError] for an id that is not a valid
    key, and the promise of [dbOperation] rejects with it.  A number or a
    string deletes the record stored under it; an array that is a valid
    key matches no record, the records of the store being kept under
    numbers and strings. *)
Definition urls_delete (id : option value) : M unit :=
  match as_key id with
  | Some k => dbOperation_delete urlsStore k
  | None => λ w,
      match db w with
      | None => (Throw DatabaseNotInitialized, w)
      | Some _ => if is_key id then (Normal tt, w) else (Throw DataError, w)
      end
  end.

(** The id is whatever the caller passes, [undefined] ([None]) included;
    the two template literals print it. *)
Definition deleteURL (id : option value) : M bool :=
  try_catch
    (if_db (urls_delete id) ;;
     cache_delete ("url_" +:+ template id) ;;
     removeFromLocalStorage ("urls_" +:+ template id) ;;
     ret true)
    (λ _, ret false).

(** *** Settings (lines 311-330) *)

Definition saveSetting (k : string) (v : value) (now : Z) : M bool :=
  try_catch
    (let data := SettingEntry k v now in
     if_db (dbOperation_put settingsStore data) ;;
     cache_set ("setting_" +:+ k) v ;;
     setItem_stringify ("setting_" +:+ k) v ;;
     ret true)
    (λ _, ret false).

(** *** Cache entries (lines 369-446) *)

(** The two readings of the clock in [cacheData] are both [now]. *)
Definition setCache (k : string) (data : value) (ttl now : Z) : M bool :=
  try_catch
    (let cacheData := CacheEntry k data now (now + ttl) in
     if_db (dbOperation_put cacheStore cacheData) ;;
     cache_set k data ;;
     ret true)
    (λ _, ret false).

Definition getCache (k : string) (now : Z) : M value :=
  try_catch
    (let! w := get_world in
     match cache w !! k with
     | Some data => ret data
     | None =>
         match db w with
         | Some _ =>
             let! cacheData := dbOperation_get cacheStore k in
             match cacheData with
             | Some e =>
                 if now <? ce_expiry e
                 then cache_set k (ce_data e) ;; ret (ce_data e)
                 else dbOperation_delete cacheStore k ;; ret VNull
             | None => ret VNull
             end
         | None => ret VNull
         end
     end)
    (λ _, ret VNull).

Definition clearExpiredCache (now : Z) : M js_count :=
  try_catch
    (let! w := get_world in
     match db w with
     | None => ret undefined
     | Some d =>
         let hits := upperBound ce_expiry now (cache_store d) in
         let swept := cursor_delete hits (cache_store d) O in
         put_world (set_db (with_contents cacheStore swept.1 d) w) ;;
         ret (count swept.2)
     end)
    (λ _, ret (count O)).

(** *** Security logs (lines 281-308, 708-742) *)

Definition getSecurityLogs (limit : nat) : M (list securityLog) :=
  try_catch
    (let! w := get_world in
     match db w with
     | Some d => ret (take limit (merge_sort newer (map_to_list (security d)).*2))
     | None => ret []
     end)
    (λ _, ret []).

Definition cleanupSecurityLogs (now : Z) : M nat :=
  try_catch
    (let thirtyDaysAgo := now - 30 * 24 * 60 * 60 * 1000 in
     let! w := get_world in
     match db w with
     | Some d =>
         let hits := upperBound log_timestamp thirtyDaysAgo (security d) in
         let swept := cursor_delete hits (security d) O in
         put_world (set_db (with_contents securityStore swept.1 d) w) ;;
         ret swept.2
     | None => ret O
     end)
    (λ _, ret O).

(** *** Optimisation, migration and maintenance (lines 666-706, 813-887) *)

(** The deletions of [toRemove] go to the security store directly
    ([store.delete(log.id)], line 686); with the database at hand that is
    what [dbOperation_delete] does. *)
Definition optimizeStorage (now : Z) : M (option optimizationResults) :=
  try_catch
    (let! cleared := clearExpiredCache now in
     let! w := get_world in
     let! removed :=
       match db w with
       | Some _ =>
           let! logs := getSecurityLogs 2000 in
           if (1000 <? length logs)%nat
           then let toRemove := drop 1000 logs in
                for_of toRemove tt
                  (λ _ log, dbOperation_delete securityStore (log_id log)) ;;
                ret (length toRemove)
           else ret O
       | None => ret O
       end in
     let! urls := getAllURLs in
     for_of urls tt
       (λ _ url,
          let! marker := lift (get_prop url "_compressed") in
          let! w := get_world in
          if negb (truthy_prop marker) && compressionEnabled w
          then saveURL url ;; ret tt
          else ret tt) ;;
     ret (Some (OptimizationResults cleared removed O)))
    (λ _, ret None).

(** The body of the loop over [legacyKeys].  [JSON.parse] is the only
    statement of the [try] block that can throw, and it comes before the
    first [migrated++]: the handler resumes with the count the block
    started with. *)
Definition migrate_key (now : Z) (migrated : nat) (k : string) : M nat :=
  let! w := get_world in
  match localStorage w !! k with
  | Some data =>
      if item_truthy data
      then try_catch
             (let! parsedData := lift (JSON_parse data) in
              let! migrated' :=
                if includes "urls" k
                then match parsedData with
                     | VArr l =>
                         for_of l migrated (λ n url, saveURL url ;; ret (S n))
                     | _ => ret migrated
                     end
                else if includes "rateLimit" k
                then saveSetting "rateLimit" parsedData now ;; ret (S migrated)
                else if includes "securityStats" k
                then saveSetting "securityStats" parsedData now ;; ret (S migrated)
                else ret migrated in
              removeItem k ;;
              ret migrated')
             (λ _, ret migrated)
      else ret migrated
  | None => ret migrated
  end.

Definition migrateFromOldStorage (now : Z) : M nat :=
  try_catch (for_of legacyKeys O (migrate_key now)) (λ _, ret O).

(** The three steps of [performMaintenance] read the clock one after the
    other, at [now1], [now2] and [now3]. *)
Definition performMaintenance (now1 now2 now3 : Z)
  : M (option maintenanceResults) :=
  try_catch
    (let! cleared := clearExpiredCache now1 in
     let! cleaned := cleanupSecurityLogs now2 in
     let! optimized := optimizeStorage now3 in
     ret (Some (MaintenanceResults cleared cleaned optimized)))
    (λ _, ret None).

End Manager.

(** ** The other methods of [StorageManager] *)

Section ManagerRest.
Context (h : host).

Definition analyticsStore : objectStore key value :=
  ObjectStore key value _ _ "analytics"
    (λ v, match v with VObj m => as_key (m !! "urlId") | _ => None end)
    analytics
    (λ m d, Idb (urls d) m (security d) (settings d) (cache_store d)).

(** [dbOperation(storeName, 'clear')] *)
Definition dbOperation_clear {K V} `{Countable K}
    (st : objectStore K V) : M unit := λ w,
  match db w with
  | None => (Throw DatabaseNotInitialized, w)
  | Some d => (Normal tt, set_db (with_contents st ∅ d) w)
  end.

(** [this.cache.clear()] *)
Definition cache_clear : M unit := λ w, (Normal tt, set_cache ∅ w).

(** *** Clearing (lines 187-209, 448-460, 582-597) *)

Definition clearLocalStorageByPrefix (prefix : string) : M bool :=
  try_catch
    (let! w := get_world in
     let! keysToRemove :=
       for_of (map_to_list (localStorage w)).*1 []
         (λ keys k,
            ret (if negb (String.eqb k EmptyString) && String.prefix prefix k
                 then keys ++ [k] else keys)) in
     for_of keysToRemove tt (λ _ k, removeItem k) ;;
     ret true)
    (λ _, ret false).

(** The loop over [this.cache.keys()] deletes the key it stands on, which
    a [Map] iterator allows: every key of the map is visited once. *)
Definition clearAllURLs : M bool :=
  try_catch
    (if_db (dbOperation_clear urlsStore) ;;
     let! w := get_world in
     for_of (map_to_list (cache w)).*1 tt
       (λ _ k, if String.prefix "url_" k then cache_delete k else ret tt) ;;
     clearLocalStorageByPrefix "urls_" ;;
     ret true)
    (λ _, ret false).

Definition clearCache : M bool :=
  try_catch
    (if_db (dbOperation_clear cacheStore) ;;
     cache_clear ;;
     ret true)
    (λ _, ret false).

(** *** Analytics (lines 212-256) *)

(** [{ urlId, ...analyticsData, timestamp: Date.now() }]: a [urlId] of
    [analyticsData] replaces the argument, and [timestamp] replaces a
    [timestamp] of [analyticsData]. *)
Definition saveAnalytics (urlId : key) (analyticsData : value) (now : Z)
  : M bool :=
  try_catch
    (let data :=
       VObj (<["timestamp" := VNum now]>
               (spread analyticsData ∪ {[ "urlId" := key_value urlId ]})) in
     if_db (dbOperation_put h analyticsStore data) ;;
     cache_set ("analytics_" +:+ key_string urlId) data ;;
     ret true)
    (λ _, ret false).

Definition getAnalytics (urlId : key) : M value :=
  try_catch
    (let cacheKey := "analytics_" +:+ key_string urlId in
     let! w := get_world in
     match cache w !! cacheKey with
     | Some data => ret data
     | None =>
         let! found :=
           match db w with
           | Some _ => dbOperation_get analyticsStore urlId
           | None => ret None
           end in
         match found with
         | Some data =>
             if truthy data then cache_set cacheKey data ;; ret data
             else ret VNull
         | None => ret VNull
         end
     end)
    (λ _, ret VNull).

(** *** Reading a setting (lines 332-366) *)

(** The inner [try] of the [localStorage] branch: [JSON.parse] succeeds on
    JSON text, and on any other text it throws and the inner [catch]
    returns the text itself. *)
Definition getSetting (k : string) (defaultValue : value) : M value :=
  try_catch
    (let cacheKey := "setting_" +:+ k in
     let fallback :=
       let! w := get_world in
       match localStorage w !! ("setting_" +:+ k) with
       | Some (Json v) => cache_set cacheKey v ;; ret v
       | Some (Raw s) =>
           if negb (String.eqb s EmptyString) then ret (VStr s)
           else ret defaultValue
       | None => ret defaultValue
       end in
     let! w := get_world in
     match cache w !! cacheKey with
     | Some v => ret v
     | None =>
         let! found :=
           match db w with
           | Some _ => dbOperation_get settingsStore k
           | None => ret None
           end in
         match found with
         | Some data =>
             cache_set cacheKey (se_value data) ;; ret (se_value data)
         | None => fallback
         end
     end)
    (λ _, ret defaultValue).

(** *** Rehydrating the memory cache (lines 599-621) *)

Fixpoint drop_chars (n : nat) (s : string) : string :=
  match n, s with
  | S n', String _ s' => drop_chars n' s'
  | _, _ => s
  end.

(** [s.replace(pat, rep)] with a string pattern: the first occurrence
    only. *)
Fixpoint replace_first (pat rep s : string) : string :=
  match s with
  | EmptyString => if String.eqb pat EmptyString then rep else EmptyString
  | String c s' =>
      if String.prefix pat s then rep +:+ drop_chars (String.length pat) s
      else String c (replace_first pat rep s')
  end.

Definition loadCacheFromLocalStorage : M unit :=
  try_catch
    (let! w := get_world in
     let! cacheKeys :=
       for_of (map_to_list (localStorage w)).*1 []
         (λ keys k,
            ret (if negb (String.eqb k EmptyString) && String.prefix "cache_" k
                 then keys ++ [k] else keys)) in
     for_of cacheKeys tt
       (λ _ k,
          let! data := getFromLocalStorage k in
          if truthy data
          then cache_set (replace_first "cache_" EmptyString k) data
          else ret tt))
    (λ _, ret tt).

(** *** Export and import (lines 745-810) *)

Record exportMetadata : Type := ExportMetadata {
  exportDate : string;
  version : string;
  compressed : bool
}.

Record exportData : Type := ExportData {
  ex_urls : list value;
  ex_settings : gmap string value;
  ex_metadata : exportMetadata
}.

(** [data.settings[setting.key] = setting.value] on the plain object
    [data.settings]: an assignment, so the key [__proto__] reaches the
    setter that [Object.prototype] has for it and creates no own property;
    every other key becomes an own property.  [ex_settings] holds the own
    properties, which are what [JSON.stringify] and [Object.entries]
    see. *)
Definition assign_setting (acc : gmap string value) (s : settingEntry)
  : gmap string value :=
  if String.eqb (se_key s) "__proto__" then acc
  else <[se_key s := se_value s]> acc.

(** [exportDate] is the text of [new Date().toISOString()]. *)
Definition exportAllData (date : string) : M (option exportData) :=
  try_catch
    (let! urls := getAllURLs in
     let! w := get_world in
     let! settings :=
       match db w with
       | Some _ =>
           let! all := dbOperation_getAll settingsStore in
           ret (foldl assign_setting ∅ all)
       | None => ret ∅
       end in
     ret (Some (ExportData urls settings
                  (ExportMetadata date "2.0" (compressionEnabled w)))))
    (λ _, ret None).

(** An entry of [importResults.errors]: the text
    [`Failed to import URL ${url.id}: ${error.message}`] (or
    [`Failed to import setting ${key}: ...`]) kept as what could not be
    imported and the error that was caught. *)
Record importError : Type := ImportError {
  failed : string;
  cause : error
}.

Record importResults : Type := ImportResults {
  im_urls : nat;
  im_settings : nat;
  im_errors : list importError
}.

(** [importData.urls] and [importData.settings] are read with
    [get_prop]; [Object.entries] lists the own enumerable properties, as
    the spread does.  Every [saveSetting] reads the clock at [now]. *)
Definition importAllData (importData : value) (now : Z)
  : M (option importResults) :=
  try_catch
    (let! urls := lift (get_prop importData "urls") in
     let! r1 :=
       match urls with
       | Some (VArr l) =>
           for_of l (ImportResults O O [])
             (λ r url,
                try_catch
                  (saveURL h url ;;
                   ret (ImportResults (S (im_urls r)) (im_settings r)
                          (im_errors r)))
                  (λ e,
                     let! id := lift (get_prop url "id") in
                     ret (ImportResults (im_urls r) (im_settings r)
                            (im_errors r
                             ++ [ImportError ("URL " +:+ template id) e]))))
       | _ => ret (ImportResults O O [])
       end in
     let! settings := lift (get_prop importData "settings") in
     let! r2 :=
       if truthy_prop settings
       then for_of (map_to_list (spread (default VNull settings))) r1
              (λ r kv,
                 try_catch
                   (saveSetting h kv.1 kv.2 now ;;
                    ret (ImportResults (im_urls r) (S (im_settings r))
                           (im_errors r)))
                   (λ e,
                      ret (ImportResults (im_urls r) (im_settings r)
                             (im_errors r
                              ++ [ImportError ("setting " +:+ kv.1) e]))))
       else ret r1 in
     ret (Some r2))
    (λ _, ret None).

(** *** Start and stop (lines 13-35, 890-902) *)

(** The manager with the two fields that only [init] and [destroy]
    use. *)
Record manager : Type := Manager {
  state : world;
  initialized : bool;
  storageQuota : option value
}.

(** [opened] is what [indexedDB.open] gives: the database of the page, or
    an error; [estimate] is what [navigator.storage.estimate()] gives when
    the browser has it.  A throw of either is caught by [init], which
    marks the manager initialised all the same and skips the rest. *)
Definition init (opened : completion IDB) (estimate : option (completion value))
    (m : manager) : manager :=
  if initialized m then m
  else
    match opened with
    | Throw _ => Manager (state m) true (storageQuota m)
    | Normal d =>
        let w1 := set_db d (state m) in
        match estimate with
        | Some (Throw _) => Manager w1 true (storageQuota m)
        | Some (Normal q) =>
            Manager (loadCacheFromLocalStorage w1).2 true (Some q)
        | None =>
            Manager (loadCacheFromLocalStorage w1).2 true (storageQuota m)
        end
    end.

Definition destroy (m : manager) : manager :=
  Manager (World None ∅ (compressionEnabled (state m)) (localStorage (state m)))
          false (storageQuota m).

(** *** The application's list of URLs (application, [loadUrls] and
    [saveUrls]) *)

Definition loadUrls : M (list value) :=
  try_catch getAllURLs (λ _, ret []).

Definition saveUrls (urls : list value) : M unit :=
  try_catch
    (for_of urls tt (λ _ url, saveURL h url ;; ret tt))
    (λ _, ret tt).

End ManagerRest.

(** * The vocabulary of the properties

    Predicates, invariants, sample data and the descriptions of outcomes
    that the statements below are written in. *)

(** The three properties [compressData] writes and [decompressData]
    removes. *)
Definition bookkeeping : gset string :=
  {[ "_compressed"; "_originalSize"; "_compressedSize" ]}.

(** The properties of a URL record, as the application builds it when a
    URL is shortened. *)
Definition url_fields : gset string :=
  {[ "id"; "originalUrl"; "shortUrl"; "shortCode"; "customAlias";
     "createdAt"; "expiryDate"; "trackClicks"; "clicks"; "uniqueClicks";
     "clickHistory"; "isActive"; "password"; "isProtected"; "abTest";
     "securityScan"; "conversions"; "conversionGoals" ]}.

Definition valid_url_record (r : gmap string value) : Prop :=
  dom r ⊆ url_fields ∧ ∃ n, r !! "id" = Some (VNum n).

(** A record without bookkeeping properties. *)
Definition plain (m : gmap string value) : Prop :=
  m !! "_compressed" = None ∧ m !! "_originalSize" = None
  ∧ m !! "_compressedSize" = None.

(** What [decompressData] does to a marked object, whatever the marker. *)
Definition strip (m : gmap string value) : gmap string value :=
  delete "_compressedSize" (delete "_originalSize" (delete "_compressed" m)).

(** A URL record as the application creates it. *)
Definition sample_url : gmap string value :=
  list_to_map
    [ ("id", VNum 1700000000000); ("originalUrl", VStr "https://example.org/a b");
      ("shortUrl", VStr "https://sho.rt/abc123"); ("shortCode", VStr "abc123");
      ("customAlias", VNull); ("createdAt", VStr "2023-11-14T22:13:20.000Z");
      ("expiryDate", VNull); ("trackClicks", VBool true); ("clicks", VNum 0);
      ("uniqueClicks", VNum 0); ("clickHistory", VArr []);
      ("isActive", VBool true); ("password", VNull);
      ("isProtected", VBool false); ("abTest", VNull);
      ("securityScan", VObj {[ "safe" := VBool true ]});
      ("conversions", VNum 0); ("conversionGoals", VArr []) ].

(** The record of the scenario of the specification, and the form in
    which [compressData] stores it. *)
Definition scenario_url : gmap string value :=
  list_to_map
    [ ("id", VNum 1); ("shortCode", VStr "abc123"); ("clicks", VNum 0) ].

Definition stored_url : gmap string value :=
  list_to_map
    [ ("id", VNum 1); ("shortCode", VStr "abc123"); ("clicks", VNum 0);
      ("_compressed", VBool true); ("_originalSize", VNum 40);
      ("_compressedSize", VNum 40) ].

(** Unfolds the monad so that a method applied to a world computes. *)
Ltac run :=
  unfold try_catch, bind, ret, throw, lift, get_world, put_world, if_db,
    cache_set, cache_delete, removeItem, dbOperation_get, dbOperation_delete,
    dbOperation_getAll, dbOperation_put, setItem_stringify;
  cbn [db cache compressionEnabled localStorage set_db set_cache
       set_localStorage fst snd].

(** The same, for the methods that clear a store or the memory cache. *)
Ltac run_rest :=
  unfold dbOperation_clear, cache_clear; run.

Definition empty_db : IDB := Idb ∅ ∅ ∅ ∅ ∅.

Definition url_cache_key (id : key) : string := "url_" +:+ key_string id.
Definition url_storage_key (id : key) : string := "urls_" +:+ key_string id.

(** A completion that is a throw. *)
Definition throws {A} (m : M A) (w : world) : Prop :=
  ∃ e w', m w = (Throw e, w').

(** The database after [put] of [c] into the [urls] store, if the request
    succeeds. *)
Definition urls_put (h : host) (c : value) (d : IDB) : option IDB :=
  match record_id c with
  | None => None
  | Some k =>
      let d' := with_contents urlsStore (<[k := c]> (urls d)) d in
      if idb_refuses h "urls" d d' then None else Some d'
  end.

(** The world after [backupToLocalStorage] and after
    [localStorage.setItem(k, JSON.stringify(v))] when it does not throw. *)
Definition mirror (h : host) (k : string) (v : value) (w : world) : world :=
  match JSON_stringify h v with
  | None => w
  | Some _ =>
      if ls_refuses h k (Json v) (localStorage w) then w
      else set_localStorage (<[k := Json v]> (localStorage w)) w
  end.

(** What [saveURL] returns and the world it leaves, without the monad. *)
Definition saveURL_outcome (h : host) (urlData : value) (w : world)
  : bool * world :=
  let c := on_save h (compressionEnabled w) urlData in
  let written :=
    match db w with
    | Some d => (λ d', set_db d' w) <$> urls_put h c d
    | None => Some w
    end in
  match written, get_prop urlData "id" with
  | Some w1, Normal id =>
      (true,
       mirror h ("urls_" +:+ template id) c
         (set_cache (<["url_" +:+ template id := c]> (cache w1)) w1))
  | Some w1, Throw _ => (false, w1)
  | None, _ => (false, w)
  end.

(** What [getFromLocalStorage] makes of an item. *)
Definition read_item (o : option item) : value :=
  match o with
  | Some (Json v) => v
  | _ => VNull
  end.

(** The items [getAllFromLocalStorage] collects from a list of entries. *)
Definition ls_scan (prefix : string) (kvs : list (string * item)) : list value :=
  omap (λ kv, if negb (String.eqb kv.1 EmptyString) && String.prefix prefix kv.1
              then (if truthy (read_item (Some kv.2))
                    then Some (read_item (Some kv.2)) else None)
              else None) kvs.

Definition has_id (id : key) (v : value) : Prop := record_id v = Some id.

Global Instance has_id_dec id v : Decision (has_id id v).
Proof. unfold has_id. apply _. Defined.

(** Two stored forms of one record: equal once the bookkeeping properties
    are set aside. *)
Definition strip_value (v : value) : value :=
  match v with
  | VObj m => VObj (strip m)
  | _ => v
  end.

Definition same_up_to_compression (a b : value) : Prop :=
  strip_value a = strip_value b.

(** IndexedDB keeps a record of the [urls] store under the key found at
    its key path; the mirror keeps a record under [urls_] followed by its
    id. *)
Definition inline_keys (d : IDB) : Prop :=
  ∀ k v, urls d !! k = Some v → record_id v = Some k.

Definition mirror_keys (l : gmap string item) : Prop :=
  ∀ sk v id, l !! sk = Some (Json v) → String.prefix "urls_" sk = true →
             record_id v = Some id → sk = url_storage_key id.

Definition well_formed (w : world) : Prop :=
  (∀ d, db w = Some d → inline_keys d) ∧ mirror_keys (localStorage w).

(** The same record after five clicks, and a world in which nothing has
    been stored yet. *)
Definition clicked_url : gmap string value :=
  list_to_map
    [ ("id", VNum 1); ("shortCode", VStr "abc123"); ("clicks", VNum 5) ].

Definition fresh_world : world := World (Some empty_db) ∅ true ∅.


Definition thirtyDays : Z := 30 * 24 * 60 * 60 * 1000.

(** A log is over the cap when a thousand other logs of the store are at
    least as recent. *)
Definition over_cap (logs : gmap Z securityLog) (l : securityLog) : Prop :=
  ∃ recent : list securityLog,
    length recent = 1000%nat ∧ NoDup recent
    ∧ ∀ x, x ∈ recent → (∃ k, logs !! k = Some x) ∧ newer x l ∧ x ≠ l.

Definition prunable (now : Z) (logs : gmap Z securityLog) (l : securityLog)
  : Prop :=
  log_timestamp l ≤ now - thirtyDays ∨ over_cap logs l.

(** [stays urls urls']: every record of [urls] is still there, under its
    key and with its content up to compression. *)
Definition stays (urls urls' : gmap key value) : Prop :=
  ∀ k v, urls !! k = Some v →
         ∃ v', urls' !! k = Some v' ∧ same_up_to_compression v' v.

(** What maintenance at time [now] may do to a world: nothing leaves the
    memory cache, [localStorage] or the [urls] store; the [analytics] and
    [settings] stores are untouched; the cache store loses expired entries
    only and the security store prunable logs only. *)
Definition maintained (now : Z) (w w' : world) : Prop :=
  compressionEnabled w' = compressionEnabled w
  ∧ dom (cache w) ⊆ dom (cache w')
  ∧ dom (localStorage w) ⊆ dom (localStorage w')
  ∧ match db w, db w' with
    | Some d, Some d' =>
        stays (urls d) (urls d')
        ∧ analytics d' = analytics d ∧ settings d' = settings d
        ∧ cache_store d' ⊆ cache_store d
        ∧ (∀ k e, cache_store d !! k = Some e → cache_store d' !! k = None →
                  ce_expiry e ≤ now)
        ∧ security d' ⊆ security d
        ∧ (∀ k l, security d !! k = Some l → security d' !! k = None →
                  prunable now (security d) l)
    | None, None => True
    | _, _ => False
    end.

(** The steps that delete nothing at all. *)
Definition kept (w w' : world) : Prop :=
  compressionEnabled w' = compressionEnabled w
  ∧ dom (cache w) ⊆ dom (cache w')
  ∧ dom (localStorage w) ⊆ dom (localStorage w')
  ∧ match db w, db w' with
    | Some d, Some d' =>
        stays (urls d) (urls d')
        ∧ analytics d' = analytics d ∧ settings d' = settings d
        ∧ cache_store d' = cache_store d ∧ security d' = security d
    | None, None => True
    | _, _ => False
    end.

(** In-line keys of the security store. *)
Definition log_keys (logs : gmap Z securityLog) : Prop :=
  ∀ k l, logs !! k = Some l → log_id l = k.

(** Saving [u] again does not change what the [urls] store of [w0] holds
    under the key of [u], up to compression. *)
Definition resave_ok (h : host) (w0 : world) (u : value) : Prop :=
  ∀ d k v, db w0 = Some d →
    record_id (on_save h (compressionEnabled w0) u) = Some k →
    urls d !! k = Some v →
    same_up_to_compression (on_save h (compressionEnabled w0) u) v.

(** The invariants of IndexedDB that maintenance relies on. *)
Definition idb_keys (w : world) : Prop :=
  ∀ d, db w = Some d → inline_keys d ∧ log_keys (security d).

(** The deleting steps leave the [urls] store exactly as it is. *)
Definition same_urls (w w' : world) : Prop :=
  match db w, db w' with
  | Some d, Some d' => urls d' = urls d
  | None, None => True
  | _, _ => False
  end.

(** A world to maintain: one compressed URL record, one cache entry that
    expired at time [1000], one security log of time [0]. *)
Definition used_db : IDB :=
  Idb {[ KNum 1 := VObj stored_url ]} ∅
      {[ 7 := SecurityLog 7 0 ∅ ]} ∅
      {[ "token" := CacheEntry "token" (VStr "payload") 0 1000 ]}.

Definition used_world : world :=
  World (Some used_db) ∅ true {[ "urls_1" := Json (VObj stored_url) ]}.

(** What [getURL] returns and the world it leaves, without the monad. *)
Definition getURL_outcome (id : key) (w : world) : value * world :=
  let fallback :=
    let localData := read_item (localStorage w !! url_storage_key id) in
    if truthy localData
    then (localData, set_cache (<[url_cache_key id := localData]> (cache w)) w)
    else (VNull, w) in
  match cache w !! url_cache_key id with
  | Some data => (on_read (compressionEnabled w) data, w)
  | None =>
      match db w ≫= (λ d, urls d !! id) with
      | Some data =>
          if truthy data
          then (on_read (compressionEnabled w) data,
                set_cache (<[url_cache_key id := data]> (cache w)) w)
          else fallback
      | None => fallback
      end
  end.

(** Nothing has been removed between [w] and [w']: every key of the memory
    cache, of [localStorage] and of the [urls] store is still there, and
    the other stores are as they were. *)
Definition grown (w w' : world) : Prop :=
  compressionEnabled w' = compressionEnabled w
  ∧ dom (cache w) ⊆ dom (cache w')
  ∧ dom (localStorage w) ⊆ dom (localStorage w')
  ∧ match db w, db w' with
    | Some d, Some d' =>
        dom (urls d) ⊆ dom (urls d')
        ∧ analytics d' = analytics d ∧ security d' = security d
        ∧ settings d' = settings d ∧ cache_store d' = cache_store d
    | None, None => True
    | _, _ => False
    end.

(** Saving the records of [saved] has left alone whatever is not stored
    under the key of one of them. *)
Definition untouched (h : host) (saved : list value) (w w' : world) : Prop :=
  (∀ k, (∀ u, u ∈ saved →
              record_id (on_save h (compressionEnabled w) u) ≠ Some k) →
        db w' ≫= (λ d, urls d !! k) = db w ≫= (λ d, urls d !! k))
  ∧ (∀ ck, (∀ u id, u ∈ saved → get_prop u "id" = Normal id →
                    ck ≠ "url_" +:+ template id) →
           cache w' !! ck = cache w !! ck)
  ∧ (∀ sk, (∀ u id, u ∈ saved → get_prop u "id" = Normal id →
                    sk ≠ "urls_" +:+ template id) →
           localStorage w' !! sk = localStorage w !! sk).

(** In-line keys of the settings store. *)
Definition setting_keys (m : gmap string settingEntry) : Prop :=
  ∀ k s, m !! k = Some s → se_key s = k.

(** A world with two saved settings and one URL record. *)
Definition configured_world : world :=
  World (Some (Idb {[ KNum 1 := VObj stored_url ]} ∅ ∅
                 {[ "theme" := SettingEntry "theme" (VStr "dark") 5;
                    "limit" := SettingEntry "limit" (VNum 10) 6 ]} ∅))
        ∅ true ∅.

(** What the migration finds under a legacy key: the elements of a URL
    list, each to be given to [saveURL], or a value to be given to
    [saveSetting] under the name of the current setting. *)
Inductive legacy_item : Type :=
  | LegacyURL (u : value)
  | LegacySetting (name : string) (v : value).

Definition legacy_items (k : string) (i : option item) : list legacy_item :=
  match i with
  | Some (Json parsedData) =>
      if includes "urls" k
      then match parsedData with
           | VArr l => LegacyURL <$> l
           | _ => []
           end
      else if includes "rateLimit" k
      then [LegacySetting "rateLimit" parsedData]
      else if includes "securityStats" k
      then [LegacySetting "securityStats" parsedData]
      else []
  | _ => []
  end.

(** The legacy items of a world, in the order of [legacyKeys]. *)
Definition legacy_plan (w : world) : list legacy_item :=
  legacyKeys ≫= (λ k, legacy_items k (localStorage w !! k)).



(** A database that accepts every write. *)
Definition accepting (h : host) : Prop :=
  ∀ name d d', idb_refuses h name d d' = false.

(** * Properties *)

(** ** Compression *)

Lemma strip_plain m : plain m → strip m = m.
Proof.
  intros (H1 & H2 & H3). unfold strip.
  rewrite (delete_id m) by done.
  rewrite (delete_id m) by done.
  by rewrite delete_id.
Qed.

Lemma strip_lookup m k : k ∉ bookkeeping → strip m !! k = m !! k.
Proof.
  intros Hk. unfold strip, bookkeeping in *.
  rewrite !lookup_delete_ne; [done | set_solver..].
Qed.

Lemma strip_lookup_bookkeeping m k : k ∈ bookkeeping → strip m !! k = None.
Proof.
  unfold strip, bookkeeping. rewrite !elem_of_union, !elem_of_singleton.
  intros [[-> | ->] | ->]; by simplify_map_eq.
Qed.

Lemma strip_idemp m : strip (strip m) = strip m.
Proof.
  apply strip_plain. repeat split; apply strip_lookup_bookkeeping;
    unfold bookkeeping; set_solver.
Qed.

Lemma valid_url_record_plain r : valid_url_record r → plain r.
Proof.
  intros [Hdom _].
  assert (∀ k, k ∉ url_fields → r !! k = None) as Hout.
  { intros k Hk. apply not_elem_of_dom. set_solver. }
  repeat split; apply Hout; apply (bool_decide_unpack _); by vm_compute.
Qed.

(** The shape of a compressed object. *)
Lemma compressData_Some h data jsonString :
  JSON_stringify h data = Some jsonString →
  compressData h data =
    VObj (<["_compressedSize" :=
              VNum (Z.of_nat (String.length (strip_whitespace jsonString)))]>
         (<["_originalSize" := VNum (Z.of_nat (String.length jsonString))]>
         (<["_compressed" := VBool true]> (spread data)))).
Proof. intros Hs. unfold compressData. by rewrite Hs. Qed.

Lemma compressData_None h data :
  JSON_stringify h data = None → compressData h data = data.
Proof. intros Hs. unfold compressData. by rewrite Hs. Qed.

Lemma strip_compress_fields (m : gmap string value) a b c :
  strip (<["_compressedSize" := a]>
        (<["_originalSize" := b]> (<["_compressed" := c]> m))) = strip m.
Proof.
  apply map_eq. intros k. unfold strip.
  destruct (decide (k = "_compressedSize")) as [-> | ?]; [by simplify_map_eq |].
  destruct (decide (k = "_originalSize")) as [-> | ?]; [by simplify_map_eq |].
  destruct (decide (k = "_compressed")) as [-> | ?]; by simplify_map_eq.
Qed.

(** Decompression after compression removes the bookkeeping properties,
    those of the input included. *)
Lemma decompress_compress_obj h m :
  decompressData (compressData h (VObj m)) = decompressData (VObj m)
  ∨ decompressData (compressData h (VObj m)) = VObj (strip m).
Proof.
  destruct (JSON_stringify h (VObj m)) as [s |] eqn:Hs.
  - right. rewrite (compressData_Some _ _ _ Hs). cbn [spread decompressData].
    rewrite lookup_insert_ne, lookup_insert_ne, lookup_insert_eq by done.
    cbn. f_equal. apply strip_compress_fields.
  - left. by rewrite compressData_None.
Qed.

Lemma decompress_plain m : plain m → decompressData (VObj m) = VObj m.
Proof. intros (H1 & _). cbn. by rewrite H1. Qed.

Lemma decompress_compress_plain h m :
  plain m → decompressData (compressData h (VObj m)) = VObj m.
Proof.
  intros Hp. destruct (decompress_compress_obj h m) as [-> | ->].
  - by apply decompress_plain.
  - by rewrite strip_plain.
Qed.

(** C2.  For every valid URL record [r], decompressing the compressed
    record gives back [r], property for property, and with compression
    switched off what is saved and what is read back are [r] itself. *)
Theorem C2_compress_roundtrip h (r : gmap string value) :
  valid_url_record r →
  decompressData (compressData h (VObj r)) = VObj r
  ∧ on_read true (on_save h true (VObj r)) = VObj r
  ∧ on_save h false (VObj r) = VObj r
  ∧ on_read false (on_save h false (VObj r)) = VObj r.
Proof.
  intros Hr. apply valid_url_record_plain in Hr.
  repeat split; try done; by apply decompress_compress_plain.
Qed.

Lemma sample_url_valid : valid_url_record sample_url.
Proof.
  split.
  - apply (bool_decide_unpack _). by vm_compute.
  - exists 1700000000000. by vm_compute.
Qed.

Lemma C2_compress_roundtrip_witness :
  valid_url_record sample_url
  ∧ decompressData (compressData browser (VObj sample_url)) = VObj sample_url
  ∧ on_read true (on_save browser true (VObj sample_url)) = VObj sample_url
  ∧ on_save browser false (VObj sample_url) = VObj sample_url
  ∧ on_read false (on_save browser false (VObj sample_url)) = VObj sample_url.
Proof.
  split; [exact sample_url_valid |].
  apply (C2_compress_roundtrip browser sample_url sample_url_valid).
Defined.

Lemma plain_disjoint (r : gmap string value) : plain r ↔ dom r ## bookkeeping.
Proof.
  unfold plain, bookkeeping. rewrite <- !not_elem_of_dom. set_solver.
Qed.

Lemma size_bookkeeping : size bookkeeping = 3%nat.
Proof. by vm_compute. Qed.

(** C9 (as amended).  For a record [r] that [JSON.stringify] accepts,
    [compressData] sets the three bookkeeping properties and leaves every
    other property of [r] as it is, so the result has the properties of [r]
    and the three bookkeeping ones and never fewer properties than [r].
    When [r] carries none of the three already, every property of [r] is
    retained and exactly three are added. *)
Theorem C9_compress_fields h (r : gmap string value) s :
  JSON_stringify h (VObj r) = Some s →
  ∃ c, compressData h (VObj r) = VObj c
     ∧ c !! "_compressed" = Some (VBool true)
     ∧ c !! "_originalSize" = Some (VNum (Z.of_nat (String.length s)))
     ∧ c !! "_compressedSize"
       = Some (VNum (Z.of_nat (String.length (strip_whitespace s))))
     ∧ dom c = dom r ∪ bookkeeping
     ∧ (∀ k, k ∉ bookkeeping → c !! k = r !! k)
     ∧ (size r ≤ size c)%nat
     ∧ (plain r → r ⊆ c ∧ size c = (size r + 3)%nat).
Proof.
  intros Hs. rewrite (compressData_Some _ _ _ Hs). cbn [spread].
  eexists. split; [reflexivity |].
  assert (dom (<["_compressedSize" :=
                   VNum (Z.of_nat (String.length (strip_whitespace s)))]>
              (<["_originalSize" := VNum (Z.of_nat (String.length s))]>
              (<["_compressed" := VBool true]> r)))
          = dom r ∪ bookkeeping) as Hdom.
  { rewrite !dom_insert_L. unfold bookkeeping. set_solver. }
  split; [by simplify_map_eq |].
  split; [by simplify_map_eq |].
  split; [by simplify_map_eq |].
  split; [exact Hdom |].
  split.
  { intros k Hk. unfold bookkeeping in Hk.
    rewrite !lookup_insert_ne; [done | set_solver..]. }
  split.
  { apply dom_subseteq_size. rewrite Hdom. set_solver. }
  intros Hp. split.
  - destruct Hp as (H1 & H2 & H3).
    apply insert_subseteq_r; [done |].
    apply insert_subseteq_r; [done |].
    by apply insert_subseteq.
  - rewrite <- !size_dom, Hdom.
    rewrite size_union by by apply plain_disjoint.
    by rewrite size_bookkeeping.
Qed.

Lemma C9_compress_fields_witness :
  JSON_stringify browser (VObj sample_url) = Some (stringify (VObj sample_url))
  ∧ ∃ c, compressData browser (VObj sample_url) = VObj c
     ∧ c !! "_compressed" = Some (VBool true)
     ∧ c !! "_originalSize"
       = Some (VNum (Z.of_nat (String.length (stringify (VObj sample_url)))))
     ∧ c !! "_compressedSize"
       = Some (VNum (Z.of_nat (String.length
                 (strip_whitespace (stringify (VObj sample_url))))))
     ∧ dom c = dom sample_url ∪ bookkeeping
     ∧ (∀ k, k ∉ bookkeeping → c !! k = sample_url !! k)
     ∧ (size sample_url ≤ size c)%nat
     ∧ (plain sample_url → sample_url ⊆ c ∧ size c = (size sample_url + 3)%nat).
Proof.
  split; [reflexivity |].
  apply (C9_compress_fields browser sample_url (stringify (VObj sample_url))).
  reflexivity.
Defined.

Example compress_scenario_url :
  compressData browser (VObj scenario_url) = VObj stored_url.
Proof. vm_compute. reflexivity. Qed.

(** C9, counterexample.  Compressing [stored_url], which already carries
    the bookkeeping properties, replaces [_originalSize] and
    [_compressedSize] and adds nothing: the object has six properties
    before and after. *)
Lemma C9_counterexample :
  JSON_stringify browser (VObj stored_url) = Some (stringify (VObj stored_url))
  ∧ ∃ c, compressData browser (VObj stored_url) = VObj c
       ∧ size c = size stored_url
       ∧ stored_url !! "_originalSize" = Some (VNum 40)
       ∧ c !! "_originalSize" = Some (VNum 99)
       ∧ ¬ stored_url ⊆ c.
Proof.
  split; [reflexivity |].
  eexists. split; [vm_compute; reflexivity |].
  split; [vm_compute; reflexivity |].
  split; [vm_compute; reflexivity |].
  split; [vm_compute; reflexivity |].
  intros Hsub.
  pose proof (lookup_weaken _ _ "_originalSize" (VNum 40) (eq_refl : stored_url !! "_originalSize" = Some (VNum 40)) Hsub) as Hl.
  vm_compute in Hl. discriminate.
Qed.

(** ** Running the methods *)

Lemma world_eta w :
  World (db w) (cache w) (compressionEnabled w) (localStorage w) = w.
Proof. by destruct w. Qed.

Lemma idb_eta d :
  Idb (urls d) (analytics d) (security d) (settings d) (cache_store d) = d.
Proof. by destruct d. Qed.

(** ** Deleting a URL *)




(** ** Cache entries *)

(** After a successful [setCache], the entry is in the memory cache. *)
Lemma setCache_true h k data ttl now w w1 :
  setCache h k data ttl now w = (Normal true, w1) →
  cache w1 !! k = Some data
  ∧ ∀ d1, db w1 = Some d1 →
      cache_store d1 !! k = Some (CacheEntry k data now (now + ttl)).
Proof.
  unfold setCache. run.
  destruct w as [[d |] c e l]; cbn.
  - destruct (idb_refuses _ _ _ _); intros [= <-]; cbn.
    split; [by simplify_map_eq |].
    intros d1 [= <-]. cbn. by simplify_map_eq.
  - intros [= <-]. cbn. split; [by simplify_map_eq | done].
Qed.

(** The memory cache answers first, and it holds no expiry: whatever the
    time of the read, the payload comes back and nothing is evicted. *)
Lemma getCache_memory k data now w :
  cache w !! k = Some data → getCache k now w = (Normal data, w).
Proof. intros Hc. unfold getCache. run. by rewrite Hc. Qed.

Lemma getCache_after_setCache h k data ttl now now' w w1 :
  setCache h k data ttl now w = (Normal true, w1) →
  getCache k now' w1 = (Normal data, w1).
Proof. intros Hs. apply getCache_memory. by apply (setCache_true _ _ _ _ _ _ _ Hs). Qed.

(** The path through IndexedDB, taken only when the memory cache has no
    entry for the key, checks the expiry: the payload before the expiry
    instant, [null] and eviction from it on. *)
Lemma getCache_durable k now w d e :
  cache w !! k = None → db w = Some d → cache_store d !! k = Some e →
  getCache k now w =
    if now <? ce_expiry e
    then (Normal (ce_data e), set_cache (<[k := ce_data e]> (cache w)) w)
    else (Normal VNull,
          set_db (with_contents cacheStore (delete k (cache_store d)) d) w).
Proof.
  destruct w as [dd c en l]. cbn. intros Hc -> He.
  unfold getCache. run. rewrite Hc. cbn. rewrite He.
  by destruct (now <? ce_expiry e).
Qed.

(** C1, on the code.  An entry written at time [0] with a TTL of [1000]
    and read at time [1000], the expiry instant, and long after it: the
    payload is returned, not [null], and the entry stays in the cache
    store. *)
Theorem C1_stale_entry_served :
  let w0 := World (Some empty_db) ∅ true ∅ in
  ∃ w1 d1,
    setCache browser "token" (VStr "payload") 1000 0 w0 = (Normal true, w1)
    ∧ db w1 = Some d1
    ∧ ce_expiry <$> cache_store d1 !! "token" = Some 1000
    ∧ getCache "token" 1000 w1 = (Normal (VStr "payload"), w1)
    ∧ getCache "token" 999999 w1 = (Normal (VStr "payload"), w1).
Proof.
  cbn zeta. eexists _, _. split; [vm_compute; reflexivity |].
  split; [reflexivity |].
  split; [vm_compute; reflexivity |].
  split; vm_compute; reflexivity.
Qed.

(** ** Cursor sweeps *)

Section Sweep.
Context {K V : Type} `{Countable K}.
Implicit Types (m : gmap K V) (hits : list (K * V)).

Lemma cursor_delete_count hits m n :
  (cursor_delete hits m n).2 = (n + length hits)%nat.
Proof.
  revert m n. induction hits as [| kv rest IH]; intros m n; cbn.
  - lia.
  - rewrite IH. lia.
Qed.

Lemma cursor_delete_lookup hits m n k :
  (cursor_delete hits m n).1 !! k =
    if decide (k ∈ hits.*1) then None else m !! k.
Proof.
  revert m n. induction hits as [| kv rest IH]; intros m n; cbn.
  - case_decide as Hin; [by apply elem_of_nil in Hin | done].
  - rewrite IH, ?fmap_cons.
    destruct (decide (k = kv.1)) as [-> | Hne].
    + rewrite lookup_delete_eq, (decide_True (P := _ ∈ _ :: _)) by left.
      by case_decide.
    + rewrite lookup_delete_ne by done.
      destruct (decide (k ∈ rest.*1)) as [Hin | Hin].
      * by rewrite decide_True by by right.
      * rewrite decide_False; [done |]. by intros [? | ?]%elem_of_cons.
Qed.

Lemma cursor_delete_size hits m n :
  NoDup hits.*1 → (∀ k, k ∈ hits.*1 → is_Some (m !! k)) →
  (size (cursor_delete hits m n).1 + length hits)%nat = size m.
Proof.
  revert m n. induction hits as [| [k v] rest IH]; intros m n Hnd Hin; cbn.
  - lia.
  - cbn in Hnd. apply NoDup_cons in Hnd as [Hk Hnd].
    destruct (Hin k) as [x Hx]; [cbn; left |].
    assert (size m ≠ 0%nat) as Hsz.
    { intros ->%map_size_empty_inv. by rewrite lookup_empty in Hx. }
    pose proof (IH (delete k m) (S n) Hnd) as IH'.
    rewrite map_size_delete, Hx in IH'.
    cut ((size (cursor_delete rest (delete k m) (S n)).1 + length rest)%nat
         = pred (size m)); [lia |].
    apply IH'. intros k' Hk'. rewrite lookup_delete_ne; [| by intros ->].
    apply Hin. cbn. by right.
Qed.

Lemma elem_of_upperBound (index : V → Z) bound m k v :
  (k, v) ∈ upperBound index bound m ↔ m !! k = Some v ∧ index v ≤ bound.
Proof.
  unfold upperBound. rewrite list_elem_of_filter, elem_of_map_to_list. cbn.
  tauto.
Qed.

Lemma NoDup_upperBound (index : V → Z) bound m :
  NoDup (upperBound index bound m).*1.
Proof.
  unfold upperBound.
  eapply NoDup_fmap_fst.
  - intros k v1 v2 [_ H1]%list_elem_of_filter [_ H2]%list_elem_of_filter.
    apply elem_of_map_to_list in H1, H2. congruence.
  - apply NoDup_filter, NoDup_map_to_list.
Qed.

(** A sweep removes exactly the records at or below the bound, and counts
    them. *)
Lemma sweep_lookup (index : V → Z) bound m k :
  (cursor_delete (upperBound index bound m) m O).1 !! k =
    match m !! k with
    | Some v => if decide (index v ≤ bound) then None else Some v
    | None => None
    end.
Proof.
  rewrite cursor_delete_lookup.
  destruct (m !! k) as [v |] eqn:Hk.
  - destruct (decide (index v ≤ bound)) as [Hle | Hgt].
    + rewrite decide_True; [done |].
      apply list_elem_of_fmap. exists (k, v).
      split; [done |]. by apply elem_of_upperBound.
    + rewrite decide_False; [done |].
      intros [[k' v'] [Heq Hin]]%list_elem_of_fmap. cbn in Heq. subst k'.
      apply elem_of_upperBound in Hin as [Hin ?]. by simplify_eq.
  - by case_decide.
Qed.

Lemma sweep_size (index : V → Z) bound m :
  (size (cursor_delete (upperBound index bound m) m O).1
   + (cursor_delete (upperBound index bound m) m O).2)%nat = size m.
Proof.
  rewrite cursor_delete_count. cbn.
  apply cursor_delete_size; [apply NoDup_upperBound |].
  intros k [[k' v] [-> Hin]]%list_elem_of_fmap.
  apply elem_of_upperBound in Hin as [Hin _]. by exists v.
Qed.

End Sweep.

(** With a database, [clearExpiredCache] removes from the cache store the
    entries whose expiry is at or below [now], those and no others, answers
    how many they were, and leaves the rest of the world alone. *)
Lemma clearExpiredCache_sweep now w d :
  db w = Some d →
  ∃ d' n, clearExpiredCache now w = (Normal (count n), set_db d' w)
    ∧ (∀ k, cache_store d' !! k =
            match cache_store d !! k with
            | Some e => if decide (ce_expiry e ≤ now) then None else Some e
            | None => None
            end)
    ∧ (size (cache_store d') + n)%nat = size (cache_store d)
    ∧ urls d' = urls d ∧ analytics d' = analytics d
    ∧ security d' = security d ∧ settings d' = settings d.
Proof.
  destruct w as [dd c e l]. cbn. intros ->.
  unfold clearExpiredCache. run. cbn.
  eexists _, _. split; [reflexivity |]. cbn.
  split; [intros k; apply sweep_lookup |].
  split; [apply sweep_size | done].
Qed.

(** C6, on the code.  With a database [clearExpiredCache] removes from the
    cache store exactly the entries whose expiry is at or below [now],
    answers their number and leaves the other stores, the memory cache and
    [localStorage] as they are.  Without a database it leaves by the bare
    [return] of line 418: its result is [undefined], not a count. *)
Theorem C6_clearExpiredCache_result now (w : world) :
  match db w with
  | None => clearExpiredCache now w = (Normal undefined, w)
  | Some d =>
      ∃ d' n, clearExpiredCache now w = (Normal (count n), set_db d' w)
        ∧ (∀ k, cache_store d' !! k =
                match cache_store d !! k with
                | Some e => if decide (ce_expiry e ≤ now) then None else Some e
                | None => None
                end)
        ∧ (size (cache_store d') + n)%nat = size (cache_store d)
        ∧ urls d' = urls d ∧ analytics d' = analytics d
        ∧ security d' = security d ∧ settings d' = settings d
  end.
Proof.
  destruct (db w) as [d |] eqn:Hd.
  - by apply clearExpiredCache_sweep.
  - destruct w as [dd c e l]. cbn in Hd. by subst dd.
Qed.

(** The sibling [cleanupSecurityLogs] answers [0] in the same
    situation. *)
Example cleanupSecurityLogs_without_db now c e l :
  cleanupSecurityLogs now (World None c e l) = (Normal O, World None c e l).
Proof. reflexivity. Qed.

(** ** Reading a URL *)

(** A hit in the memory cache: no durable tier is read and the world does
    not change. *)
Lemma getURL_memory id w data :
  cache w !! url_cache_key id = Some data →
  getURL id w = (Normal (on_read (compressionEnabled w) data), w).
Proof. intros Hc. unfold getURL. run. fold (url_cache_key id). by rewrite Hc. Qed.

(** A hit in IndexedDB: the record is copied into the memory cache as it
    is stored. *)
Lemma getURL_database id w d data :
  cache w !! url_cache_key id = None → db w = Some d →
  urls d !! id = Some data → truthy data = true →
  getURL id w = (Normal (on_read (compressionEnabled w) data),
                 set_cache (<[url_cache_key id := data]> (cache w)) w).
Proof.
  destruct w as [dd c e l]. cbn. intros Hc -> Hu Ht.
  unfold getURL. run. fold (url_cache_key id). rewrite Hc. cbn.
  by rewrite Hu, Ht.
Qed.

(** A hit in [localStorage] only: the parsed item is returned as it is,
    whatever the toggle says (line 133 has no [decompressData]). *)
Lemma getURL_fallback id w v :
  cache w !! url_cache_key id = None →
  (∀ d, db w = Some d → urls d !! id = None) →
  localStorage w !! url_storage_key id = Some (Json v) → truthy v = true →
  getURL id w = (Normal v, set_cache (<[url_cache_key id := v]> (cache w)) w).
Proof.
  destruct w as [dd c e l]. cbn. intros Hc Hd Hl Ht.
  unfold getURL, getFromLocalStorage. run.
  fold (url_cache_key id) (url_storage_key id). rewrite Hc.
  destruct dd as [d |]; cbn.
  - rewrite (Hd d eq_refl). cbn. rewrite Hl. cbn. by rewrite Ht.
  - rewrite Hl. cbn. by rewrite Ht.
Qed.

Lemma on_read_marked m :
  truthy_prop (m !! "_compressed") = true → on_read true (VObj m) = VObj (strip m).
Proof. intros Hm. cbn. by rewrite Hm. Qed.

(** C3 (as amended).  For a record found in the memory cache or in
    IndexedDB, [getURL] returns it through the toggle: with compression
    switched on the marker is looked for in the record itself, a marked
    record comes back without its bookkeeping properties (a compressed
    valid record comes back as it was saved) and an unmarked one comes
    back unchanged; with compression switched off the stored form comes
    back as it is. *)
Theorem C3_getURL_by_toggle id w data :
  (cache w !! url_cache_key id = Some data
   ∨ (cache w !! url_cache_key id = None
      ∧ ∃ d, db w = Some d ∧ urls d !! id = Some data ∧ truthy data = true)) →
  (∃ w', getURL id w = (Normal (on_read (compressionEnabled w) data), w'))
  ∧ on_read false data = data
  ∧ (∀ m, data = VObj m → truthy_prop (m !! "_compressed") = true →
       on_read true data = VObj (strip m)
       ∧ ∀ k, k ∈ bookkeeping → strip m !! k = None)
  ∧ (∀ m, data = VObj m → plain m → on_read true data = data)
  ∧ (∀ h r, valid_url_record r → data = compressData h (VObj r) →
       on_read true data = VObj r).
Proof.
  intros Hhit. split.
  { destruct Hhit as [Hc | (Hc & d & Hd & Hu & Ht)].
    - eexists. by apply getURL_memory.
    - eexists. by eapply getURL_database. }
  split; [done |]. split.
  { intros m -> Hm. split; [by apply on_read_marked |].
    intros k. apply strip_lookup_bookkeeping. }
  split.
  { intros m -> Hp. by apply decompress_plain. }
  intros h r Hr ->. apply decompress_compress_plain.
  by apply valid_url_record_plain.
Qed.

Lemma C3_getURL_by_toggle_witness :
  let w := World None {[ "url_1" := VObj stored_url ]} true ∅ in
  (cache w !! url_cache_key (KNum 1) = Some (VObj stored_url)
   ∨ (cache w !! url_cache_key (KNum 1) = None
      ∧ ∃ d, db w = Some d ∧ urls d !! KNum 1 = Some (VObj stored_url)
             ∧ truthy (VObj stored_url) = true))
  ∧ (∃ w', getURL (KNum 1) w
           = (Normal (on_read (compressionEnabled w) (VObj stored_url)), w'))
  ∧ on_read true (VObj stored_url) = VObj scenario_url.
Proof.
  cbn zeta.
  assert (cache (World None {[ "url_1" := VObj stored_url ]} true ∅)
            !! url_cache_key (KNum 1) = Some (VObj stored_url)) as Hc.
  { vm_compute. reflexivity. }
  split; [by left |].
  pose proof (C3_getURL_by_toggle (KNum 1) _ _ (or_introl Hc)) as (Hget & _).
  split; [exact Hget |]. vm_compute. reflexivity.
Defined.

(** C3, counterexample.  Compression switched off and a compressed record
    in the memory cache: [getURL] returns it with the marker and the two
    sizes still in it. *)
Lemma C3_counterexample :
  let w := World None {[ "url_1" := VObj stored_url ]} false ∅ in
  getURL (KNum 1) w = (Normal (VObj stored_url), w)
  ∧ stored_url !! "_compressed" = Some (VBool true)
  ∧ stored_url !! "_originalSize" = Some (VNum 40)
  ∧ stored_url !! "_compressedSize" = Some (VNum 40).
Proof. cbn zeta. repeat split; vm_compute; reflexivity. Qed.

(** The same record found in [localStorage] alone comes back marked even
    with compression switched on. *)
Example getURL_fallback_keeps_marker :
  let w := World None ∅ true {[ "urls_1" := Json (VObj stored_url) ]} in
  ∃ w', getURL (KNum 1) w = (Normal (VObj stored_url), w').
Proof. cbn zeta. eexists. vm_compute. reflexivity. Qed.

(** ** Saving a URL *)

Lemma saveURL_run h urlData w :
  saveURL h urlData w =
    (Normal (saveURL_outcome h urlData w).1, (saveURL_outcome h urlData w).2).
Proof.
  unfold saveURL, saveURL_outcome, backupToLocalStorage, urls_put, mirror. run.
  destruct w as [[d |] c e l]; cbn.
  - destruct (record_id _) as [k |]; cbn; [| done].
    destruct (idb_refuses _ _ _ _); cbn; [done |].
    destruct (get_prop urlData "id") as [id |]; cbn; [| done].
    destruct (JSON_stringify _ _); cbn; [| done].
    by destruct (ls_refuses _ _ _ _).
  - destruct (get_prop urlData "id") as [id |]; cbn; [| done].
    destruct (JSON_stringify _ _); cbn; [| done].
    by destruct (ls_refuses _ _ _ _).
Qed.


Lemma get_prop_throws v name e :
  get_prop v name = Throw e → v = VNull ∧ e = TypeError.
Proof. destruct v; cbn; intros; by simplify_eq. Qed.





(** ** Listing the URLs *)

Lemma prefix_app p s : String.prefix p (p +:+ s) = true.
Proof.
  induction p as [| c p IH].
  { change (EmptyString +:+ s) with s. by destruct s. }
  change (String c p +:+ s) with (String c (p +:+ s)). cbn.
  destruct (Ascii.ascii_dec c c); [done | congruence].
Qed.

Lemma getFromLocalStorage_run k w :
  getFromLocalStorage k w = (Normal (read_item (localStorage w !! k)), w).
Proof.
  unfold getFromLocalStorage. run.
  destruct (localStorage w !! k) as [[v | s] |]; cbn; [done | | done].
  by destruct (negb (String.eqb s EmptyString)).
Qed.

Lemma ls_scan_cons prefix k i kvs :
  ls_scan prefix ((k, i) :: kvs) =
    (if negb (String.eqb k EmptyString) && String.prefix prefix k
     then (if truthy (read_item (Some i)) then [read_item (Some i)] else [])
     else []) ++ ls_scan prefix kvs.
Proof.
  unfold ls_scan. cbn [omap list_omap fst snd].
  destruct (negb (String.eqb k EmptyString) && String.prefix prefix k); [| done].
  by destruct (truthy (read_item (Some i))).
Qed.

Lemma getAllFromLocalStorage_loop prefix kvs items w :
  (∀ k i, (k, i) ∈ kvs → localStorage w !! k = Some i) →
  for_of kvs.*1 items
    (λ items k,
       if negb (String.eqb k EmptyString) && String.prefix prefix k
       then let! data := getFromLocalStorage k in
            ret (if truthy data then items ++ [data] else items)
       else ret items) w
  = (Normal (items ++ ls_scan prefix kvs), w).
Proof.
  revert items. induction kvs as [| [k i] kvs IH]; intros items Hin.
  - cbn. unfold ret. by rewrite app_nil_r.
  - rewrite ls_scan_cons, fmap_cons. cbn [for_of fst]. unfold bind at 1.
    assert (localStorage w !! k = Some i) as Hk by (apply Hin; left).
    destruct (negb (String.eqb k EmptyString) && String.prefix prefix k).
    + unfold bind at 1. rewrite getFromLocalStorage_run, Hk. unfold ret at 1.
      rewrite IH by (intros; apply Hin; by right).
      destruct (truthy (read_item (Some i))); [| done].
      by rewrite <- app_assoc.
    + unfold ret at 1. apply IH. intros. apply Hin. by right.
Qed.

Lemma getAllFromLocalStorage_run prefix w :
  getAllFromLocalStorage prefix w
  = (Normal (ls_scan prefix (map_to_list (localStorage w))), w).
Proof.
  unfold getAllFromLocalStorage, try_catch, bind at 1, get_world.
  rewrite getAllFromLocalStorage_loop; [done |].
  intros k i. apply elem_of_map_to_list.
Qed.

(** The loop of [getAllURLs] that copies the records into the memory
    cache touches nothing but the memory cache, keeps what is there, and
    runs to its end unless a record is [null]. *)
Lemma cache_urls_loop (urls : list value) w :
  ∃ r c', for_of urls tt
            (λ _ url,
               let! id := lift (get_prop url "id") in
               cache_set ("url_" +:+ template id) url) w
          = (r, set_cache c' w)
    ∧ dom (cache w) ⊆ dom c'
    ∧ ((∀ u, u ∈ urls → u ≠ VNull) → r = Normal tt).
Proof.
  set (body := λ (_ : ()) (url : value),
                 let! id := lift (get_prop url "id") in
                 cache_set ("url_" +:+ template id) url).
  revert w. induction urls as [| u urls IH]; intros w; cbn [for_of].
  - exists (Normal tt), (cache w). unfold ret, set_cache.
    by rewrite world_eta.
  - unfold bind at 1. unfold body at 1. unfold bind at 1, lift, cache_set.
    destruct (get_prop u "id") as [id | e] eqn:Hid.
    + destruct (IH (set_cache (<["url_" +:+ template id := u]> (cache w)) w))
        as (r & c' & -> & Hdom & Hr).
      exists r, c'. split; [done |]. split.
      * cbn in Hdom. rewrite dom_insert in Hdom. set_solver.
      * intros Hu. apply Hr. intros. apply Hu. by right.
    + exists (Throw e), (cache w). unfold set_cache. rewrite world_eta.
      split; [done |]. split; [done |].
      intros Hu. apply get_prop_throws in Hid as [-> _].
      exfalso. by apply (Hu VNull); [left |].
Qed.

Lemma getAllURLs_fallback w :
  db w = None →
  getAllURLs w = (Normal (ls_scan "urls_" (map_to_list (localStorage w))), w).
Proof.
  intros Hd. unfold getAllURLs, try_catch, bind at 1, get_world. rewrite Hd.
  unfold bind at 1, ret at 1. by rewrite getAllFromLocalStorage_run.
Qed.

Lemma getAllURLs_database w d :
  db w = Some d → urls d ≠ ∅ →
  (∀ k v, urls d !! k = Some v → v ≠ VNull) →
  ∃ c', getAllURLs w
        = (Normal (on_read (compressionEnabled w) <$> (map_to_list (urls d)).*2),
           set_cache c' w)
    ∧ dom (cache w) ⊆ dom c'.
Proof.
  intros Hd Hne Hnn.
  destruct (cache_urls_loop (map_to_list (urls d)).*2 w)
    as (r & c' & Hloop & Hdom & Hr).
  rewrite Hr in Hloop.
  2:{ intros u [[k v] [-> Hin]]%list_elem_of_fmap.
      apply elem_of_map_to_list in Hin. by eapply Hnn. }
  exists c'. split; [| done].
  unfold getAllURLs, try_catch, bind at 1, get_world. rewrite Hd.
  unfold bind at 1, bind at 1, dbOperation_getAll. rewrite Hd.
  cbn [contents urlsStore].
  assert ((0 <? length (map_to_list (urls d)).*2)%nat = true) as ->.
  { apply Nat.ltb_lt. rewrite length_fmap.
    destruct (map_to_list (urls d)) eqn:Hl; [| cbn; lia].
    by apply map_to_list_empty_iff in Hl. }
  unfold bind at 1. rewrite Hloop. unfold ret. cbn.
  do 2 f_equal. destruct (compressionEnabled w); [done |].
  exact (eq_sym (list_fmap_id _)).
Qed.

(** ** Write, then read *)

Lemma record_id_strip m : record_id (VObj (strip m)) = record_id (VObj m).
Proof. cbn. rewrite strip_lookup; [done |]. unfold bookkeeping. set_solver. Qed.

Lemma record_id_decompress v : record_id (decompressData v) = record_id v.
Proof.
  destruct v as [| | | | | m]; try done. unfold decompressData.
  destruct (truthy_prop _); [apply record_id_strip | done].
Qed.

Lemma record_id_on_read enabled v : record_id (on_read enabled v) = record_id v.
Proof. destruct enabled; [apply record_id_decompress | done]. Qed.

Lemma record_id_compress h r :
  record_id (compressData h (VObj r)) = record_id (VObj r).
Proof.
  unfold compressData. destruct (JSON_stringify _ _); [| done].
  cbn. by rewrite !lookup_insert_ne.
Qed.

Lemma record_id_on_save h enabled r :
  record_id (on_save h enabled (VObj r)) = record_id (VObj r).
Proof. destruct enabled; [apply record_id_compress | done]. Qed.

Lemma strip_value_decompress v : strip_value (decompressData v) = strip_value v.
Proof.
  destruct v as [| | | | | m]; try done. unfold decompressData.
  destruct (truthy_prop _); [| done]. cbn [strip_value].
  fold (strip m). by rewrite strip_idemp.
Qed.

Lemma strip_value_compress h r :
  strip_value (compressData h (VObj r)) = VObj (strip r).
Proof.
  unfold compressData. destruct (JSON_stringify _ _); [| done].
  cbn [strip_value spread]. by rewrite strip_compress_fields.
Qed.

Lemma read_saved_up_to_compression h e1 e2 r :
  same_up_to_compression (on_read e1 (on_save h e2 (VObj r))) (VObj r).
Proof.
  unfold same_up_to_compression.
  destruct e1; cbn [on_read]; rewrite ?strip_value_decompress;
    destruct e2; cbn [on_save]; by rewrite ?strip_value_compress.
Qed.

Lemma read_saved_plain h e r :
  plain r → on_read e (on_save h e (VObj r)) = VObj r.
Proof. destruct e; [apply decompress_compress_plain | done]. Qed.

Lemma on_save_truthy h e r : truthy (on_save h e (VObj r)) = true.
Proof.
  destruct e; [| done]. unfold on_save, compressData.
  by destruct (JSON_stringify _ _).
Qed.

Lemma as_key_template o id : as_key o = Some id → template o = key_string id.
Proof. destruct o as [[] |]; cbn; intros; by simplify_eq. Qed.

(** The effect of a successful [saveURL] of a record with id [id]. *)
Lemma saveURL_true_obj h r id w w1 :
  record_id (VObj r) = Some id →
  saveURL h (VObj r) w = (Normal true, w1) →
  let c := on_save h (compressionEnabled w) (VObj r) in
  compressionEnabled w1 = compressionEnabled w
  ∧ cache w1 = <[url_cache_key id := c]> (cache w)
  ∧ match db w with
    | Some d => ∃ d1, db w1 = Some d1 ∧ urls d1 = <[id := c]> (urls d)
    | None => db w1 = None
    end
  ∧ (localStorage w1 = localStorage w
     ∨ localStorage w1 = <[url_storage_key id := Json c]> (localStorage w)).
Proof.
  intros Hid. rewrite saveURL_run. intros [= Hb Hw]. revert Hb Hw.
  unfold saveURL_outcome, urls_put, mirror.
  rewrite record_id_on_save, Hid. cbn in Hid.
  cbn [get_prop]. rewrite (as_key_template _ _ Hid).
  fold (url_cache_key id) (url_storage_key id).
  destruct w as [[d |] c e l]; cbn.
  - destruct (idb_refuses _ _ _ _); cbn; [done |].
    intros _ <-. destruct (JSON_stringify _ _); cbn.
    + destruct (ls_refuses _ _ _ _); cbn; eauto 10.
    + eauto 10.
  - intros _ <-. destruct (JSON_stringify _ _); cbn.
    + destruct (ls_refuses _ _ _ _); cbn; eauto 10.
    + eauto 10.
Qed.

Lemma filter_none {A} (P : A → Prop) `{∀ x, Decision (P x)} (l : list A) :
  (∀ x, x ∈ l → ¬ P x) → filter P l = [].
Proof.
  induction l as [| x l IH]; intros Hl; [done |].
  rewrite filter_cons_False by (apply Hl; left).
  apply IH. intros. apply Hl. by right.
Qed.

Lemma urls_listing d id c e :
  inline_keys d → urls d !! id = Some c →
  length (filter (has_id id) (on_read e <$> (map_to_list (urls d)).*2)) = 1%nat
  ∧ ∀ v, v ∈ on_read e <$> (map_to_list (urls d)).*2 → has_id id v →
         v = on_read e c.
Proof.
  intros Hinl Hc. split.
  - rewrite <- (map_to_list_delete _ _ _ Hc), !fmap_cons. cbn [snd].
    rewrite filter_cons_True.
    2:{ unfold has_id. rewrite record_id_on_read. by apply Hinl. }
    rewrite filter_none; [done |].
    intros v (v0 & -> & [[k v1] [-> Hin]]%list_elem_of_fmap)%list_elem_of_fmap.
    apply elem_of_map_to_list in Hin. cbn.
    unfold has_id. rewrite record_id_on_read.
    apply lookup_delete_Some in Hin as [Hne Hin].
    rewrite (Hinl _ _ Hin). congruence.
  - intros v (v0 & -> & [[k v1] [-> Hin]]%list_elem_of_fmap)%list_elem_of_fmap.
    apply elem_of_map_to_list in Hin. cbn.
    unfold has_id. rewrite record_id_on_read, (Hinl _ _ Hin).
    intros [= ->]. congruence.
Qed.

Lemma url_storage_key_scanned id :
  negb (String.eqb (url_storage_key id) EmptyString)
  && String.prefix "urls_" (url_storage_key id) = true.
Proof. unfold url_storage_key. by rewrite prefix_app. Qed.

Lemma elem_of_ls_scan prefix kvs v :
  v ∈ ls_scan prefix kvs →
  ∃ k, (k, Json v) ∈ kvs ∧ String.prefix prefix k = true ∧ truthy v = true.
Proof.
  unfold ls_scan. intros ([k i] & Hin & Hf)%list_elem_of_omap. cbn in Hf.
  destruct (String.eqb k EmptyString); [done |]. cbn in Hf.
  destruct (String.prefix prefix k) eqn:Hp; [| done].
  destruct i as [v' | s]; cbn in Hf; [| done].
  destruct (truthy v') eqn:Ht; [| done]. simplify_eq. by exists k.
Qed.

Lemma mirror_listing l id c :
  mirror_keys l → l !! url_storage_key id = Some (Json c) →
  truthy c = true → record_id c = Some id →
  length (filter (has_id id) (ls_scan "urls_" (map_to_list l))) = 1%nat
  ∧ ∀ v, v ∈ ls_scan "urls_" (map_to_list l) → has_id id v → v = c.
Proof.
  intros Hm Hc Ht Hid. split.
  - unfold ls_scan at 1. rewrite <- (map_to_list_delete _ _ _ Hc).
    fold (ls_scan "urls_" ((url_storage_key id, Json c)
                           :: map_to_list (delete (url_storage_key id) l))).
    rewrite ls_scan_cons, url_storage_key_scanned. cbn [read_item].
    rewrite Ht. cbn [app]. rewrite filter_cons_True by done.
    rewrite filter_none; [done |].
    intros v (k & Hin & Hp & _)%elem_of_ls_scan Hv.
    apply elem_of_map_to_list, lookup_delete_Some in Hin as [Hne Hin].
    apply Hne. symmetry. by eapply Hm.
  - intros v (k & Hin & Hp & _)%elem_of_ls_scan Hv.
    apply elem_of_map_to_list in Hin.
    pose proof (Hm _ _ _ Hin Hp Hv) as ->. congruence.
Qed.

Lemma saveURL_well_formed h r id w w1 :
  record_id (VObj r) = Some id →
  saveURL h (VObj r) w = (Normal true, w1) →
  well_formed w → well_formed w1.
Proof.
  intros Hid Hs [Hdb Hls].
  destruct (saveURL_true_obj _ _ _ _ _ Hid Hs) as (_ & _ & Hd & Hl).
  assert (record_id (on_save h (compressionEnabled w) (VObj r)) = Some id)
    as Hc by by rewrite record_id_on_save.
  split.
  - intros d1 Hd1. destruct (db w) as [d |]; [| congruence].
    destruct Hd as (d1' & ? & Hu). simplify_eq.
    intros k v. rewrite Hu. intros [[<- <-] | [_ Hv]]%lookup_insert_Some; [done |].
    by eapply Hdb.
  - destruct Hl as [-> | ->]; [done |].
    intros sk v id'.
    intros [[<- [= <-]] | [_ Hv]]%lookup_insert_Some Hp Hv'.
    + congruence.
    + by eapply Hls.
Qed.

(** C4 (as amended).  After two successful saves of records with the same
    id, [getURL] answers from the memory cache alone (any world with that
    memory cache and toggle gives the same answer and is left unchanged)
    with the record of the last save, up to compression and exactly when
    the record is plain.  [getAllURLs] then lists exactly one record with
    that id, the one saved last, provided the durable tier it reads holds
    it: the database is available, or the mirror write to [localStorage]
    took effect. *)
Theorem C4_save_then_read h (r1 r2 : gmap string value) (id : key)
    (w w1 w2 : world) :
  well_formed w →
  record_id (VObj r1) = Some id → record_id (VObj r2) = Some id →
  saveURL h (VObj r1) w = (Normal true, w1) →
  saveURL h (VObj r2) w1 = (Normal true, w2) →
  (db w2 = None →
   localStorage w2 !! url_storage_key id
   = Some (Json (on_save h (compressionEnabled w2) (VObj r2)))) →
  (∃ v1, same_up_to_compression v1 (VObj r1)
         ∧ (plain r1 → v1 = VObj r1)
         ∧ ∀ w', cache w' = cache w1 →
                 compressionEnabled w' = compressionEnabled w1 →
                 getURL id w' = (Normal v1, w'))
  ∧ (∃ v2, same_up_to_compression v2 (VObj r2)
           ∧ (plain r2 → v2 = VObj r2)
           ∧ ∀ w', cache w' = cache w2 →
                   compressionEnabled w' = compressionEnabled w2 →
                   getURL id w' = (Normal v2, w'))
  ∧ ∃ l w3, getAllURLs w2 = (Normal l, w3)
            ∧ length (filter (has_id id) l) = 1%nat
            ∧ ∀ v, v ∈ l → has_id id v →
                   same_up_to_compression v (VObj r2)
                   ∧ (plain r2 → is_Some (db w2) → v = VObj r2).
Proof.
  intros Hwf Hid1 Hid2 Hs1 Hs2 Hmirror.
  pose proof (saveURL_well_formed _ _ _ _ _ Hid1 Hs1 Hwf) as Hwf1.
  pose proof (saveURL_well_formed _ _ _ _ _ Hid2 Hs2 Hwf1) as [Hdb2 Hls2].
  destruct (saveURL_true_obj _ _ _ _ _ Hid1 Hs1) as (He1 & Hc1 & Hd1 & _).
  destruct (saveURL_true_obj _ _ _ _ _ Hid2 Hs2) as (He2 & Hc2 & Hd2 & _).
  cbn zeta in *.
  split; [| split].
  - exists (on_read (compressionEnabled w1)
              (on_save h (compressionEnabled w) (VObj r1))).
    split; [apply read_saved_up_to_compression |]. split.
    + intros Hp. rewrite He1. by apply read_saved_plain.
    + intros w' Hc He. rewrite <- He. apply getURL_memory.
      rewrite Hc, Hc1. by rewrite lookup_insert_eq.
  - exists (on_read (compressionEnabled w2)
              (on_save h (compressionEnabled w1) (VObj r2))).
    split; [apply read_saved_up_to_compression |]. split.
    + intros Hp. rewrite He2. by apply read_saved_plain.
    + intros w' Hc He. rewrite <- He. apply getURL_memory.
      rewrite Hc, Hc2. by rewrite lookup_insert_eq.
  - destruct (db w2) as [d2 |] eqn:Hdb.
    + assert (urls d2 !! id
              = Some (on_save h (compressionEnabled w1) (VObj r2))) as Hu.
      { destruct (db w1) as [d1 |]; [| congruence].
        destruct Hd2 as (d2' & [= <-] & ->).
        by rewrite lookup_insert_eq. }
      destruct (getAllURLs_database w2 d2 Hdb) as (c' & Hall & _).
      { intros Hemp. by rewrite Hemp, lookup_empty in Hu. }
      { intros k v Hv ->. by pose proof (Hdb2 d2 eq_refl _ _ Hv). }
      destruct (urls_listing d2 id _ (compressionEnabled w2)
                  (Hdb2 d2 eq_refl) Hu) as [Hlen Hel].
      eexists _, _. split; [exact Hall |]. split; [exact Hlen |].
      intros v Hv Hhas. rewrite (Hel v Hv Hhas). split.
      * apply read_saved_up_to_compression.
      * intros Hp _. rewrite He2. by apply read_saved_plain.
    + specialize (Hmirror eq_refl).
      rewrite (getAllURLs_fallback w2 Hdb).
      destruct (mirror_listing _ id _ Hls2 Hmirror) as [Hlen Hel].
      { apply on_save_truthy. }
      { by rewrite record_id_on_save. }
      eexists _, _. split; [reflexivity |]. split; [exact Hlen |].
      intros v Hv Hhas. rewrite (Hel v Hv Hhas). split.
      * apply (read_saved_up_to_compression h false).
      * by intros _ [? ?].
Qed.

Lemma fresh_world_well_formed : well_formed fresh_world.
Proof.
  split.
  - intros d [= <-] k v Hv. cbn in Hv. by rewrite lookup_empty in Hv.
  - intros sk v id Hv. cbn in Hv. by rewrite lookup_empty in Hv.
Qed.

Lemma C4_save_then_read_witness :
  let w1 := (saveURL browser (VObj scenario_url) fresh_world).2 in
  let w2 := (saveURL browser (VObj clicked_url) w1).2 in
  well_formed fresh_world
  ∧ record_id (VObj scenario_url) = Some (KNum 1)
  ∧ record_id (VObj clicked_url) = Some (KNum 1)
  ∧ saveURL browser (VObj scenario_url) fresh_world = (Normal true, w1)
  ∧ saveURL browser (VObj clicked_url) w1 = (Normal true, w2)
  ∧ (db w2 = None →
     localStorage w2 !! url_storage_key (KNum 1)
     = Some (Json (on_save browser (compressionEnabled w2) (VObj clicked_url))))
  ∧ ∃ l w3, getAllURLs w2 = (Normal l, w3)
            ∧ length (filter (has_id (KNum 1)) l) = 1%nat
            ∧ ∀ v, v ∈ l → has_id (KNum 1) v →
                   same_up_to_compression v (VObj clicked_url)
                   ∧ (plain clicked_url → is_Some (db w2) → v = VObj clicked_url).
Proof.
  cbn zeta.
  assert (saveURL browser (VObj scenario_url) fresh_world
          = (Normal true, (saveURL browser (VObj scenario_url) fresh_world).2))
    as H1 by (vm_compute; reflexivity).
  assert (saveURL browser (VObj clicked_url)
            (saveURL browser (VObj scenario_url) fresh_world).2
          = (Normal true,
             (saveURL browser (VObj clicked_url)
                (saveURL browser (VObj scenario_url) fresh_world).2).2))
    as H2 by (vm_compute; reflexivity).
  assert (db (saveURL browser (VObj clicked_url)
                (saveURL browser (VObj scenario_url) fresh_world).2).2 = None →
          localStorage (saveURL browser (VObj clicked_url)
                (saveURL browser (VObj scenario_url) fresh_world).2).2
            !! url_storage_key (KNum 1)
          = Some (Json (on_save browser
                (compressionEnabled (saveURL browser (VObj clicked_url)
                   (saveURL browser (VObj scenario_url) fresh_world).2).2)
                (VObj clicked_url)))) as H3 by (intros _; vm_compute; reflexivity).
  split; [exact fresh_world_well_formed |].
  split; [reflexivity |]. split; [reflexivity |].
  split; [exact H1 |]. split; [exact H2 |]. split; [exact H3 |].
  apply (C4_save_then_read browser scenario_url clicked_url (KNum 1)
           fresh_world _ _ fresh_world_well_formed eq_refl eq_refl H1 H2 H3).
Defined.

(** The scenario, run. *)
Example scenario_run :
  let w1 := (saveURL browser (VObj scenario_url) fresh_world).2 in
  let w2 := (saveURL browser (VObj clicked_url) w1).2 in
  (getAllURLs w1).1 = Normal [VObj scenario_url]
  ∧ (getURL (KNum 1) w2).1 = Normal (VObj clicked_url)
  ∧ (getAllURLs w2).1 = Normal [VObj clicked_url].
Proof. cbn zeta. repeat split; vm_compute; reflexivity. Qed.

(** C4, counterexample.  No database and a full [localStorage]: [saveURL]
    answers [true], [getURL] finds the record in the memory cache, and
    [getAllURLs], which reads the durable tiers only, lists nothing. *)
Lemma C4_counterexample :
  let w := World None ∅ true ∅ in
  ∃ w1, saveURL browser_ls_full (VObj scenario_url) w = (Normal true, w1)
        ∧ getURL (KNum 1) w1 = (Normal (VObj scenario_url), w1)
        ∧ getAllURLs w1 = (Normal [], w1).
Proof.
  cbn zeta. eexists. split; [vm_compute; reflexivity |].
  split; vm_compute; reflexivity.
Qed.

(** ** Migration of legacy data *)

(** [saveURL] writes to [localStorage] under [urls_...] only, and
    [saveSetting] under [setting_...] only. *)
Lemma mirror_localStorage h sk v w k :
  k ≠ sk → localStorage (mirror h sk v w) !! k = localStorage w !! k.
Proof.
  intros Hne. unfold mirror. destruct (JSON_stringify _ _); [| done].
  destruct (ls_refuses _ _ _ _); [done |]. cbn. by rewrite lookup_insert_ne.
Qed.

Lemma prefix_app_ne p s k : String.prefix p k = false → k ≠ p +:+ s.
Proof. intros Hp ->. by rewrite prefix_app in Hp. Qed.


Lemma saveSetting_localStorage h name v now w :
  ∃ b w', saveSetting h name v now w = (Normal b, w')
    ∧ ∀ k, String.prefix "setting_" k = false →
           localStorage w' !! k = localStorage w !! k.
Proof.
  unfold saveSetting. run.
  destruct w as [[d |] c e l]; cbn.
  - destruct (idb_refuses _ _ _ _); cbn; [by eexists _, _ |].
    destruct (JSON_stringify _ _); cbn; [| by eexists _, _].
    destruct (ls_refuses _ _ _ _); cbn; [by eexists _, _ |].
    eexists _, _. split; [done |]. intros k Hk. cbn.
    rewrite lookup_insert_ne; [done |]. symmetry. by apply prefix_app_ne.
  - destruct (JSON_stringify _ _); cbn; [| by eexists _, _].
    destruct (ls_refuses _ _ _ _); cbn; [by eexists _, _ |].
    eexists _, _. split; [done |]. intros k Hk. cbn.
    rewrite lookup_insert_ne; [done |]. symmetry. by apply prefix_app_ne.
Qed.



















(** A legacy URL list and a legacy item that is not JSON: the first run
    migrates the one record, the second run nothing. *)
Example migration_run :
  let w := World None ∅ true
             {[ "urlShortener_urls" := Json (VArr [VObj scenario_url]);
                "urlShortener_rateLimit" := Raw "{oops" ]} in
  let w1 := (migrateFromOldStorage browser 0 w).2 in
  (migrateFromOldStorage browser 0 w).1 = Normal 1%nat
  ∧ localStorage w1 !! "urlShortener_urls" = None
  ∧ localStorage w1 !! "urls_1" = Some (Json (VObj stored_url))
  ∧ migrateFromOldStorage browser 5 w1 = (Normal O, w1).
Proof. cbn zeta. repeat split; vm_compute; reflexivity. Qed.

(** The same legacy list and a legacy rate limit with a database that
    accepts every write: both items are counted, the record is in the
    [urls] store under its id in its compressed form, and the rate limit
    is in the settings store. *)
Example migration_into_database :
  let w := World (Some empty_db) ∅ true
             {[ "urlShortener_urls" := Json (VArr [VObj scenario_url]);
                "secureUrlShortener_rateLimit" := Json (VNum 10) ]} in
  let w1 := (migrateFromOldStorage browser 7 w).2 in
  accepting browser
  ∧ (migrateFromOldStorage browser 7 w).1 = Normal 2%nat
  ∧ legacy_plan w = [LegacyURL (VObj scenario_url);
                     LegacySetting "rateLimit" (VNum 10)]
  ∧ (db w1 ≫= λ d, urls d !! KNum 1) = Some (VObj stored_url)
  ∧ (db w1 ≫= λ d, settings d !! "rateLimit")
    = Some (SettingEntry "rateLimit" (VNum 10) 7)
  ∧ localStorage w1 !! "urlShortener_urls" = None
  ∧ localStorage w1 !! "secureUrlShortener_rateLimit" = None.
Proof. cbn zeta. split; [done |]. repeat split; vm_compute; reflexivity. Qed.

(** ** Maintenance *)

Lemma stays_refl urls : stays urls urls.
Proof. intros k v Hv. by exists v. Qed.

Lemma stays_trans u1 u2 u3 : stays u1 u2 → stays u2 u3 → stays u1 u3.
Proof.
  intros H12 H23 k v Hv.
  destruct (H12 _ _ Hv) as (v2 & Hv2 & Hs2).
  destruct (H23 _ _ Hv2) as (v3 & Hv3 & Hs3).
  exists v3. split; [done |]. unfold same_up_to_compression in *. congruence.
Qed.

Lemma over_cap_mono logs logs' l : logs' ⊆ logs → over_cap logs' l → over_cap logs l.
Proof.
  intros Hsub (recent & Hlen & Hnd & Hrec).
  exists recent. split; [done |]. split; [done |].
  intros x Hx. destruct (Hrec x Hx) as ((k & Hk) & ? & ?).
  split; [| done]. exists k. by eapply lookup_weaken.
Qed.

Lemma maintained_refl now w : maintained now w w.
Proof.
  unfold maintained. split; [done |]. split; [done |]. split; [done |].
  destruct (db w) as [d |]; [| done].
  split; [apply stays_refl |]. repeat split; try done; congruence.
Qed.

Lemma maintained_trans now w1 w2 w3 :
  maintained now w1 w2 → maintained now w2 w3 → maintained now w1 w3.
Proof.
  intros (He1 & Hc1 & Hl1 & Hd1) (He2 & Hc2 & Hl2 & Hd2).
  split; [congruence |]. split; [set_solver |]. split; [set_solver |].
  destruct (db w1) as [d1 |], (db w2) as [d2 |], (db w3) as [d3 |]; try done.
  destruct Hd1 as (Hu1 & Ha1 & Hs1 & Hcs1 & Hce1 & Hsec1 & Hpr1).
  destruct Hd2 as (Hu2 & Ha2 & Hs2 & Hcs2 & Hce2 & Hsec2 & Hpr2).
  split; [by eapply stays_trans |].
  split; [congruence |]. split; [congruence |].
  split; [by etrans |]. split.
  { intros k e Hk Hk3. destruct (cache_store d2 !! k) as [e2 |] eqn:Hk2.
    - pose proof (lookup_weaken _ _ _ _ Hk2 Hcs1) as Hk'.
      assert (e2 = e) as -> by congruence. by eapply Hce2.
    - by eapply Hce1. }
  split; [by etrans |].
  intros k l Hk Hk3. destruct (security d2 !! k) as [l2 |] eqn:Hk2.
  - pose proof (lookup_weaken _ _ _ _ Hk2 Hsec1) as Hk'.
    assert (l2 = l) as -> by congruence.
    destruct (Hpr2 _ _ Hk2 Hk3) as [? | Hcap]; [by left |].
    right. by eapply over_cap_mono.
  - by eapply Hpr1.
Qed.

Lemma kept_maintained now w w' : kept w w' → maintained now w w'.
Proof.
  intros (He & Hc & Hl & Hd). split; [done |]. split; [done |]. split; [done |].
  destruct (db w) as [d |], (db w') as [d' |]; try done.
  destruct Hd as (Hu & Ha & Hs & Hcs & Hsec).
  rewrite Hcs, Hsec. repeat split; try done; congruence.
Qed.

Lemma kept_refl w : kept w w.
Proof.
  unfold kept. split; [done |]. split; [done |]. split; [done |].
  destruct (db w) as [d |]; [| done]. split; [apply stays_refl | done].
Qed.

Lemma sweep_subseteq {K V} `{Countable K} (index : V → Z) bound (m : gmap K V) :
  (cursor_delete (upperBound index bound m) m O).1 ⊆ m.
Proof.
  apply map_subseteq_spec. intros k v. rewrite sweep_lookup.
  destruct (m !! k) as [v' |]; [| done]. by case_decide.
Qed.

Lemma sweep_removed {K V} `{Countable K} (index : V → Z) bound (m : gmap K V) k v :
  m !! k = Some v →
  (cursor_delete (upperBound index bound m) m O).1 !! k = None →
  index v ≤ bound.
Proof. rewrite sweep_lookup. intros ->. by case_decide. Qed.

Lemma clearExpiredCache_maintained now w :
  ∃ r w', clearExpiredCache now w = (Normal r, w') ∧ maintained now w w'.
Proof.
  destruct w as [[d |] c e l].
  - unfold clearExpiredCache. run. cbn.
    eexists _, _. split; [reflexivity |].
    split; [done |]. split; [done |]. split; [done |]. cbn.
    split; [apply stays_refl |]. split; [done |]. split; [done |].
    split; [apply sweep_subseteq |].
    split; [intros k en; apply sweep_removed |].
    split; [done | congruence].
  - eexists _, _. split; [reflexivity | apply maintained_refl].
Qed.

Lemma cleanupSecurityLogs_maintained now w :
  ∃ n w', cleanupSecurityLogs now w = (Normal n, w') ∧ maintained now w w'.
Proof.
  destruct w as [[d |] c e l].
  - unfold cleanupSecurityLogs. run. cbn.
    eexists _, _. split; [reflexivity |].
    split; [done |]. split; [done |]. split; [done |]. cbn.
    split; [apply stays_refl |]. split; [done |]. split; [done |].
    split; [done |]. split; [congruence |].
    split; [apply sweep_subseteq |].
    intros k lg Hk Hgone. left. by eapply sweep_removed.
  - eexists _, _. split; [reflexivity | apply maintained_refl].
Qed.

Lemma getSecurityLogs_run limit w :
  getSecurityLogs limit w =
    (Normal match db w with
            | Some d => take limit (merge_sort newer (map_to_list (security d)).*2)
            | None => []
            end, w).
Proof. unfold getSecurityLogs. run. by destruct (db w). Qed.

(** The order of the [prev] cursor is total and transitive. *)
Global Instance newer_total : Total newer.
Proof. intros a b. unfold newer. lia. Qed.

Global Instance newer_trans : Transitive newer.
Proof. intros a b c. unfold newer. lia. Qed.

Lemma log_keys_NoDup logs : log_keys logs → NoDup (map_to_list logs).*2.
Proof.
  intros Hk. apply NoDup_fmap_2_strong; [| apply NoDup_map_to_list].
  intros [k1 l1] [k2 l2] H1%elem_of_map_to_list H2%elem_of_map_to_list Heq.
  cbn in Heq. subst l2. f_equal. rewrite <- (Hk _ _ H1). by apply Hk.
Qed.

(** The loop [for (const log of toRemove) store.delete(log.id)]. *)
Lemma prune_loop (toRemove : list securityLog) w d :
  db w = Some d →
  for_of toRemove tt (λ _ log, dbOperation_delete securityStore (log_id log)) w
  = (Normal tt,
     set_db (with_contents securityStore
               (foldl (λ m log, delete (log_id log) m) (security d) toRemove) d) w).
Proof.
  revert w d. induction toRemove as [| lg rest IH]; intros w d Hd; cbn [for_of foldl].
  - unfold ret. destruct w as [dd c e l]. cbn in *. subst dd.
    by rewrite idb_eta.
  - unfold bind at 1, dbOperation_delete. rewrite Hd.
    erewrite IH by reflexivity. by destruct d.
Qed.

Lemma prune_lookup (toRemove : list securityLog) (logs : gmap Z securityLog) k :
  foldl (λ m log, delete (log_id log) m) logs toRemove !! k =
    if decide (k ∈ log_id <$> toRemove) then None else logs !! k.
Proof.
  revert logs. induction toRemove as [| lg rest IH]; intros logs; cbn [foldl].
  - by rewrite decide_False by apply not_elem_of_nil.
  - rewrite IH, fmap_cons. destruct (decide (k = log_id lg)) as [-> | Hne].
    + rewrite lookup_delete_eq, (decide_True (P := _ ∈ _ :: _)) by left.
      by case_decide.
    + rewrite lookup_delete_ne by done.
      destruct (decide (k ∈ log_id <$> rest)) as [Hin | Hin].
      * by rewrite decide_True by by right.
      * rewrite decide_False; [done |]. by intros [? | ?]%elem_of_cons.
Qed.

(** The logs [getSecurityLogs] returns: each is in the store, none twice,
    latest first. *)
Lemma recent_logs (logs : gmap Z securityLog) limit :
  log_keys logs →
  let listed := take limit (merge_sort newer (map_to_list logs).*2) in
  NoDup listed ∧ StronglySorted newer listed
  ∧ ∀ x, x ∈ listed → logs !! log_id x = Some x.
Proof.
  intros Hk listed.
  assert (NoDup (merge_sort newer (map_to_list logs).*2)) as Hnd.
  { rewrite merge_sort_Permutation. by apply log_keys_NoDup. }
  split; [| split].
  - eapply sublist_NoDup; [exact Hnd | apply sublist_take].
  - eapply StronglySorted_app_1_l.
    unfold listed. rewrite take_drop. apply StronglySorted_merge_sort; apply _.
  - intros x Hx.
    pose proof (elem_of_sublist _ _ _ Hx (sublist_take _ _)) as Hx'.
    rewrite merge_sort_Permutation in Hx'. clear Hx. rename Hx' into Hx.
    apply list_elem_of_fmap in Hx as [[k l] [-> Hin]].
    apply elem_of_map_to_list in Hin. cbn. by rewrite (Hk _ _ Hin).
Qed.

(** The count-based prune of [optimizeStorage] removes logs that are over
    the cap, and nothing else changes. *)
Lemma count_prune_maintained now w d :
  db w = Some d → log_keys (security d) →
  let logs := take 2000 (merge_sort newer (map_to_list (security d)).*2) in
  (1000 < length logs)%nat →
  maintained now w
    (set_db (with_contents securityStore
               (foldl (λ m log, delete (log_id log) m) (security d)
                  (drop 1000 logs)) d) w).
Proof.
  intros Hd Hk logs Hlen.
  destruct (recent_logs (security d) 2000 Hk) as (Hnd & Hsorted & Hin).
  fold logs in Hnd, Hsorted, Hin.
  split; [done |]. split; [done |]. split; [done |].
  rewrite Hd. cbn.
  split; [apply stays_refl |]. split; [done |]. split; [done |].
  split; [done |]. split; [congruence |]. split.
  { apply map_subseteq_spec. intros k l. rewrite prune_lookup.
    by case_decide. }
  intros k l Hl. rewrite prune_lookup. case_decide as Hrm; [| congruence].
  intros _. right.
  apply list_elem_of_fmap in Hrm as (l' & -> & Hl').
  assert (l' = l) as ->.
  { pose proof (Hin l' (elem_of_sublist _ _ _ Hl' (sublist_drop _ _))).
    congruence. }
  exists (take 1000 logs). split.
  { rewrite length_take. lia. }
  rewrite <- (take_drop 1000 logs) in Hnd, Hsorted.
  apply NoDup_app in Hnd as (Hnd1 & Hdisj & _).
  split; [done |].
  intros x Hx. split; [| split].
  - exists (log_id x). apply Hin.
    eapply elem_of_sublist; [exact Hx | apply sublist_take].
  - by eapply StronglySorted_app_1_elem_of.
  - intros ->. by eapply Hdisj.
Qed.

Lemma mirror_kept h sk v w :
  compressionEnabled (mirror h sk v w) = compressionEnabled w
  ∧ db (mirror h sk v w) = db w ∧ cache (mirror h sk v w) = cache w
  ∧ dom (localStorage w) ⊆ dom (localStorage (mirror h sk v w)).
Proof.
  unfold mirror. destruct (JSON_stringify _ _); [| done].
  destruct (ls_refuses _ _ _ _); [done |]. cbn.
  repeat split; try done. rewrite dom_insert. set_solver.
Qed.

Lemma saveURL_kept h u w0 w :
  kept w0 w → resave_ok h w0 u → kept w0 (saveURL_outcome h u w).2.
Proof.
  intros (He & Hc & Hl & Hd) Hok. unfold saveURL_outcome, urls_put.
  rewrite He.
  destruct (db w) as [d |] eqn:Hdb; cbn.
  - destruct (db w0) as [d0 |] eqn:Hdb0; [| done].
    destruct Hd as (Hu & Ha & Hs & Hcs & Hsec).
    destruct (record_id _) as [k |] eqn:Hk; cbn.
    2:{ unfold kept. by rewrite Hdb, Hdb0. }
    destruct (idb_refuses _ _ _ _); cbn.
    { unfold kept. by rewrite Hdb, Hdb0. }
    destruct (get_prop u "id") as [id | err]; cbn.
    + destruct (mirror_kept h ("urls_" +:+ template id)
                  (on_save h (compressionEnabled w0) u)
                  (set_cache (<["url_" +:+ template id :=
                                  on_save h (compressionEnabled w0) u]> (cache w))
                     (set_db (Idb (<[k := on_save h (compressionEnabled w0) u]> (urls d))
                                  (analytics d) (security d) (settings d)
                                  (cache_store d)) w)))
        as (Hme & Hmd & Hmc & Hml).
      unfold kept. rewrite Hme, Hmd, Hmc, Hdb0. cbn.
      split; [done |]. split; [rewrite dom_insert; set_solver |].
      split; [set_solver |].
      split; [| done].
      intros k0 v0 Hv0. destruct (decide (k0 = k)) as [-> | Hne].
      * eexists. rewrite lookup_insert_eq. split; [done |].
        by eapply Hok.
      * rewrite lookup_insert_ne by done. by apply Hu.
    + unfold kept. cbn. rewrite Hdb0. split; [done |]. split; [done |].
      split; [done |]. split; [| done].
      intros k0 v0 Hv0. destruct (decide (k0 = k)) as [-> | Hne].
      * eexists. rewrite lookup_insert_eq. split; [done |].
        by eapply Hok.
      * rewrite lookup_insert_ne by done. by apply Hu.
  - destruct (db w0) as [d0 |] eqn:Hdb0; [done |].
    destruct (get_prop u "id") as [id | err]; cbn.
    + destruct (mirror_kept h ("urls_" +:+ template id)
                  (on_save h (compressionEnabled w0) u)
                  (set_cache (<["url_" +:+ template id :=
                                  on_save h (compressionEnabled w0) u]> (cache w)) w))
        as (Hme & Hmd & Hmc & Hml).
      unfold kept. rewrite Hme, Hmd, Hmc, Hdb0. cbn. rewrite Hdb.
      split; [done |]. split; [rewrite dom_insert; set_solver |].
      split; [set_solver | done].
    + unfold kept. by rewrite Hdb, Hdb0.
Qed.

(** The re-compression loop of [optimizeStorage]. *)
Lemma recompress_loop h (l : list value) w0 w :
  kept w0 w → (∀ u, u ∈ l → resave_ok h w0 u) →
  ∃ r w', for_of l tt
            (λ _ url,
               let! marker := lift (get_prop url "_compressed") in
               let! w := get_world in
               if negb (truthy_prop marker) && compressionEnabled w
               then saveURL h url ;; ret tt
               else ret tt) w
          = (r, w')
    ∧ kept w0 w'.
Proof.
  set (body := λ (_ : ()) (url : value),
                 let! marker := lift (get_prop url "_compressed") in
                 let! w := get_world in
                 if negb (truthy_prop marker) && compressionEnabled w
                 then saveURL h url ;; ret tt
                 else ret tt).
  revert w. induction l as [| u l IH]; intros w Hk Hok; cbn [for_of].
  - by exists (Normal tt), w.
  - unfold bind at 1. unfold body at 1. unfold bind at 1, lift.
    destruct (get_prop u "_compressed") as [marker | err].
    + unfold bind at 1, get_world.
      destruct (negb (truthy_prop marker) && compressionEnabled w).
      * unfold bind at 1. rewrite saveURL_run. unfold ret at 1.
        apply IH; [| intros; apply Hok; by right].
        apply saveURL_kept; [done |]. apply Hok. by left.
      * unfold ret at 1. apply IH; [done |]. intros. apply Hok. by right.
    + by exists (Throw err), w.
Qed.

Lemma getAllURLs_empty w d :
  db w = Some d → urls d = ∅ →
  getAllURLs w = (Normal (ls_scan "urls_" (map_to_list (localStorage w))), w).
Proof.
  intros Hd He. unfold getAllURLs, try_catch, bind at 1, get_world. rewrite Hd.
  unfold bind at 1, bind at 1, dbOperation_getAll. rewrite Hd.
  cbn [contents urlsStore]. rewrite He, map_to_list_empty. cbn.
  unfold ret at 1. by rewrite getAllFromLocalStorage_run.
Qed.

Lemma set_cache_kept c' w : dom (cache w) ⊆ dom c' → kept w (set_cache c' w).
Proof.
  intros Hdom. split; [done |]. split; [done |]. split; [done |]. cbn.
  destruct (db w) as [d |]; [| done]. split; [apply stays_refl | done].
Qed.

Lemma strip_value_on_read e v : strip_value (on_read e v) = strip_value v.
Proof. destruct e; [apply strip_value_decompress | done]. Qed.

Lemma on_read_obj e m : ∃ m', on_read e (VObj m) = VObj m'.
Proof.
  destruct e; cbn; [| by eexists].
  destruct (truthy_prop _); by eexists.
Qed.

Lemma record_id_obj v k : record_id v = Some k → ∃ m, v = VObj m.
Proof. destruct v; try done. by eexists. Qed.

(** [getAllURLs] only adds to the memory cache, and what it lists from a
    database with in-line keys can be saved again without harm. *)
Lemma getAllURLs_kept h w :
  (∀ d, db w = Some d → inline_keys d) →
  ∃ l w', getAllURLs w = (Normal l, w') ∧ kept w w' ∧ db w' = db w
    ∧ ∀ u, u ∈ l → resave_ok h w' u.
Proof.
  intros Hinl. destruct (db w) as [d |] eqn:Hd.
  - destruct (decide (urls d = ∅)) as [He | Hne].
    + eexists _, _. split; [by apply (getAllURLs_empty w d) |].
      split; [apply kept_refl |]. split; [done |].
      intros u _ d' k v Hd' _ Hv. rewrite Hd in Hd'. injection Hd' as <-.
      by rewrite He, lookup_empty in Hv.
    + destruct (getAllURLs_database w d Hd Hne) as (c' & Hall & Hdom).
      { intros k v Hv ->. by pose proof (Hinl d eq_refl _ _ Hv). }
      eexists _, _. split; [exact Hall |].
      split; [by apply set_cache_kept |]. split; [done |].
      intros u Hu d' k v Hd' Hk Hv. cbn in Hd', Hk.
      rewrite Hd in Hd'. injection Hd' as <-.
      apply list_elem_of_fmap in Hu as (v0 & -> & Hu).
      apply list_elem_of_fmap in Hu as ([k0 v1] & -> & Hu).
      apply elem_of_map_to_list in Hu. cbn in *.
      pose proof (Hinl d eq_refl _ _ Hu) as Hid.
      destruct (record_id_obj _ _ Hid) as (m & ->).
      destruct (on_read_obj (compressionEnabled w) m) as (m' & Hm').
      assert (strip_value (VObj m') = strip_value (VObj m)) as Hstrip
        by by rewrite <- Hm', strip_value_on_read.
      assert (record_id (VObj m') = Some k0) as Hid'
        by by rewrite <- Hm', record_id_on_read.
      rewrite Hm' in Hk |- *. rewrite record_id_on_save, Hid' in Hk.
      injection Hk as <-. assert (v = VObj m) as -> by congruence.
      unfold same_up_to_compression. rewrite <- Hstrip.
      apply (read_saved_up_to_compression h false).
  - eexists _, _. split; [by apply getAllURLs_fallback |].
    split; [apply kept_refl |]. split; [done |].
    intros u _ d' k v Hd'. congruence.
Qed.

Lemma idb_keys_step now w w' :
  idb_keys w → maintained now w w' → same_urls w w' → idb_keys w'.
Proof.
  intros Hk (_ & _ & _ & Hm) Hu d' Hd'. unfold same_urls in Hu.
  rewrite Hd' in Hm, Hu. destruct (db w) as [d |] eqn:Hd; [| done].
  destruct (Hk d Hd) as [Hinl Hlog].
  destruct Hm as (_ & _ & _ & _ & _ & Hsec & _). split.
  - unfold inline_keys. by rewrite Hu.
  - intros k l Hl. apply Hlog. by eapply lookup_weaken.
Qed.

Lemma clearExpiredCache_same_urls now w :
  same_urls w (clearExpiredCache now w).2.
Proof.
  destruct w as [[d |] c e l]; [| done].
  unfold clearExpiredCache. run. by cbn.
Qed.

Lemma cleanupSecurityLogs_same_urls now w :
  same_urls w (cleanupSecurityLogs now w).2.
Proof.
  destruct w as [[d |] c e l]; [| done].
  unfold cleanupSecurityLogs. run. by cbn.
Qed.

(** The count-based prune as [optimizeStorage] runs it. *)
Lemma count_prune_run now w :
  idb_keys w →
  ∃ removed w',
    (match db w with
     | Some _ =>
         let! logs := getSecurityLogs 2000 in
         if (1000 <? length logs)%nat
         then let toRemove := drop 1000 logs in
              for_of toRemove tt
                (λ _ log, dbOperation_delete securityStore (log_id log)) ;;
              ret (length toRemove)
         else ret O
     | None => ret O
     end) w = (Normal removed, w')
    ∧ maintained now w w' ∧ same_urls w w'.
Proof.
  intros Hk. destruct (db w) as [d |] eqn:Hd.
  - unfold bind at 1. rewrite getSecurityLogs_run, Hd.
    destruct (1000 <? length _)%nat eqn:Hlen.
    + unfold bind at 1. rewrite (prune_loop _ w d Hd). unfold ret.
      eexists _, _. split; [reflexivity |]. split.
      * apply count_prune_maintained; [done | by apply Hk |].
        by apply Nat.ltb_lt.
      * unfold same_urls. by rewrite Hd.
    + unfold ret. eexists _, _. split; [reflexivity |].
      split; [apply maintained_refl |]. unfold same_urls. by rewrite Hd.
  - unfold ret. eexists _, _. split; [reflexivity |].
    split; [apply maintained_refl |]. unfold same_urls. by rewrite Hd.
Qed.

Lemma bind_run {A B} (m : M A) (k : A → M B) w a w' :
  m w = (Normal a, w') → bind m k w = k a w'.
Proof. intros Hm. unfold bind. by rewrite Hm. Qed.

Lemma bind_throw {A B} (m : M A) (k : A → M B) w e w' :
  m w = (Throw e, w') → bind m k w = (Throw e, w').
Proof. intros Hm. unfold bind. by rewrite Hm. Qed.

Lemma bind_get_world {B} (k : world → M B) w : bind get_world k w = k w w.
Proof. done. Qed.

Lemma optimizeStorage_maintained h now w :
  idb_keys w →
  ∃ r w', optimizeStorage h now w = (Normal r, w') ∧ maintained now w w'.
Proof.
  intros Hk.
  destruct (clearExpiredCache_maintained now w) as (cleared & wa & Ha & Hma).
  pose proof (clearExpiredCache_same_urls now w) as Hsa. rewrite Ha in Hsa.
  pose proof (idb_keys_step _ _ _ Hk Hma Hsa) as Hka.
  destruct (count_prune_run now wa Hka) as (removed & wb & Hb & Hmb & Hsb).
  pose proof (idb_keys_step _ _ _ Hka Hmb Hsb) as Hkb.
  destruct (getAllURLs_kept h wb) as (l & wc & Hc & Hkc & _ & Hok).
  { intros d Hd. by apply Hkb. }
  destruct (recompress_loop h l wc wc (kept_refl wc) Hok) as (r & wd & Hd & Hkd).
  assert (maintained now w wd) as Hm.
  { eapply maintained_trans; [exact Hma |].
    eapply maintained_trans; [exact Hmb |].
    eapply maintained_trans; by apply kept_maintained. }
  unfold optimizeStorage, try_catch.
  erewrite bind_run by exact Ha.
  rewrite bind_get_world. cbn beta.
  erewrite bind_run by exact Hb.
  erewrite bind_run by exact Hc.
  destruct r as [[] | e].
  - erewrite bind_run by exact Hd. unfold ret. by eexists _, _.
  - erewrite bind_throw by exact Hd. unfold ret. by eexists _, _.
Qed.

Lemma maintained_mono now now' w w' :
  now ≤ now' → maintained now w w' → maintained now' w w'.
Proof.
  intros Hle (He & Hc & Hl & Hd). split; [done |]. split; [done |].
  split; [done |].
  destruct (db w) as [d |], (db w') as [d' |]; try done.
  destruct Hd as (Hu & Ha & Hs & Hcs & Hce & Hsec & Hpr).
  repeat split; try done.
  - intros k e Hk Hk'. pose proof (Hce _ _ Hk Hk'). lia.
  - intros k l Hk Hk'. destruct (Hpr _ _ Hk Hk') as [? | ?]; [left | by right].
    lia.
Qed.

(** C8.  In a world whose IndexedDB keeps its records under their in-line
    keys, [performMaintenance] does not throw and the world it leaves is
    [maintained] as of the last reading of the clock: every record of the
    [urls] store is still there under its key with its content up to
    compression, nothing has left the memory cache or [localStorage], the
    [analytics] and [settings] stores are untouched, every entry gone from
    the cache store had expired, and every log gone from the security
    store was older than thirty days or over the cap of a thousand. *)
Theorem C8_maintenance_keeps_urls h (now1 now2 now3 : Z) (w : world) :
  now1 ≤ now2 → now2 ≤ now3 → idb_keys w →
  ∃ r w', performMaintenance h now1 now2 now3 w = (Normal r, w')
          ∧ maintained now3 w w'.
Proof.
  intros H12 H23 Hk.
  destruct (clearExpiredCache_maintained now1 w) as (cleared & wa & Ha & Hma).
  pose proof (clearExpiredCache_same_urls now1 w) as Hsa. rewrite Ha in Hsa.
  pose proof (idb_keys_step _ _ _ Hk Hma Hsa) as Hka.
  destruct (cleanupSecurityLogs_maintained now2 wa) as (cleaned & wb & Hb & Hmb).
  pose proof (cleanupSecurityLogs_same_urls now2 wa) as Hsb. rewrite Hb in Hsb.
  pose proof (idb_keys_step _ _ _ Hka Hmb Hsb) as Hkb.
  destruct (optimizeStorage_maintained h now3 wb Hkb) as (r & wc & Hc & Hmc).
  unfold performMaintenance, try_catch.
  erewrite bind_run by exact Ha.
  erewrite bind_run by exact Hb.
  erewrite bind_run by exact Hc. unfold ret.
  eexists _, _. split; [reflexivity |].
  eapply maintained_trans; [apply (maintained_mono now1); [lia | exact Hma] |].
  eapply maintained_trans; [apply (maintained_mono now2); [lia | exact Hmb] |].
  exact Hmc.
Qed.

Lemma used_world_keys : idb_keys used_world.
Proof.
  intros d [= <-]. split.
  - intros k v Hv. cbn in Hv.
    apply lookup_singleton_Some in Hv as [<- <-]. reflexivity.
  - intros k l Hl. cbn in Hl.
    apply lookup_singleton_Some in Hl as [<- <-]. reflexivity.
Qed.

Lemma C8_maintenance_keeps_urls_witness :
  3000000000 ≤ 3000000001 ∧ 3000000001 ≤ 3000000002
  ∧ idb_keys used_world
  ∧ ∃ r w', performMaintenance browser 3000000000 3000000001 3000000002
              used_world = (Normal r, w')
            ∧ maintained 3000000002 used_world w'.
Proof.
  split; [lia |]. split; [lia |]. split; [exact used_world_keys |].
  apply (C8_maintenance_keeps_urls browser 3000000000 3000000001 3000000002
           used_world); [lia | lia | exact used_world_keys].
Defined.

(** Maintenance, run on that world a little over thirty days after time
    [0]: the cache entry and the log are swept, the URL record stays. *)
Example maintenance_run :
  let run := performMaintenance browser 3000000000 3000000001 3000000002
               used_world in
  run.1 = Normal (Some (MaintenanceResults (count 1) 1
                          (Some (OptimizationResults (count 0) 0 0))))
  ∧ (urls <$> db run.2) = Some {[ KNum 1 := VObj stored_url ]}
  ∧ (cache_store <$> db run.2) = Some ∅
  ∧ (security <$> db run.2) = Some ∅.
Proof. cbn zeta. repeat split; vm_compute; reflexivity. Qed.

(** * Further properties *)

(** ** The sizes [compressData] records *)

Lemma length_append s1 s2 :
  String.length (s1 +:+ s2) = (String.length s1 + String.length s2)%nat.
Proof.
  induction s1 as [| c s1 IH]; [done |].
  change (String c s1 +:+ s2) with (String c (s1 +:+ s2)). cbn. by rewrite IH.
Qed.

Lemma length_rev_app s acc :
  String.length (String.rev_app s acc)
  = (String.length s + String.length acc)%nat.
Proof.
  revert acc. induction s as [| c s IH]; intros acc; cbn; [done |].
  rewrite IH. cbn. lia.
Qed.

Lemma length_rev s : String.length (String.rev s) = String.length s.
Proof. unfold String.rev. rewrite length_rev_app. cbn. lia. Qed.

Lemma collapse_spaces_length in_run s :
  (String.length (collapse_spaces in_run s) ≤ String.length s)%nat.
Proof.
  revert in_run. induction s as [| c s IH]; intros in_run; cbn; [done |].
  destruct (is_space c).
  - destruct in_run; cbn; pose proof (IH true); lia.
  - cbn. pose proof (IH false). lia.
Qed.

Lemma prefix_length pat s :
  String.prefix pat s = true → (String.length pat ≤ String.length s)%nat.
Proof.
  revert pat. induction s as [| c s IH]; intros [| a pat]; cbn; try done; try lia.
  destruct (Ascii.ascii_dec a c); [| done]. intros Hp%IH. lia.
Qed.

Lemma replace_from_length pat rep skip s :
  (String.length rep ≤ String.length pat)%nat →
  (String.length (replace_from pat rep skip s) + min skip (String.length s)
   ≤ String.length s)%nat.
Proof.
  intros Hrep. revert skip.
  induction s as [| c s IH]; intros skip; [cbn; lia |].
  cbn [replace_from]. destruct skip as [| n].
  - destruct (String.prefix pat (String c s) && negb (String.eqb pat EmptyString))
      eqn:Hm.
    + apply andb_prop in Hm as [Hp Hne]. apply prefix_length in Hp.
      rewrite length_append. specialize (IH (String.length pat - 1)%nat).
      destruct pat as [| a pat]; [done |]. cbn in *. lia.
    + cbn. specialize (IH O). lia.
  - cbn. specialize (IH n). lia.
Qed.

Lemma trim_start_length s :
  (String.length (trim_start s) ≤ String.length s)%nat.
Proof.
  induction s as [| c s IH]; cbn; [done |].
  destruct (is_space c); cbn; lia.
Qed.

Lemma strip_whitespace_length s :
  (String.length (strip_whitespace s) ≤ String.length s)%nat.
Proof.
  unfold strip_whitespace, trim, replace_all.
  rewrite length_rev.
  etrans; [apply trim_start_length |]. rewrite length_rev.
  etrans; [apply trim_start_length |].
  pose proof (replace_from_length (dquote +:+ ", " +:+ dquote)
                (dquote +:+ "," +:+ dquote) O
                (replace_from (dquote +:+ ": " +:+ dquote)
                   (dquote +:+ ":" +:+ dquote) O (collapse_spaces false s))) as H1.
  pose proof (replace_from_length (dquote +:+ ": " +:+ dquote)
                (dquote +:+ ":" +:+ dquote) O (collapse_spaces false s)) as H2.
  pose proof (collapse_spaces_length false s) as H3.
  assert (String.length (dquote +:+ "," +:+ dquote)
          ≤ String.length (dquote +:+ ", " +:+ dquote))%nat as Ha
    by (vm_compute; lia).
  assert (String.length (dquote +:+ ":" +:+ dquote)
          ≤ String.length (dquote +:+ ": " +:+ dquote))%nat as Hb
    by (vm_compute; lia).
  specialize (H1 Ha). specialize (H2 Hb). lia.
Qed.

(** X1.  Whatever text [JSON.stringify] gives for the data, the
    [_compressedSize] that [compressData] records is a size between zero
    and the [_originalSize] it records. *)
Theorem compressData_sizes h (data : value) (jsonString : string) :
  JSON_stringify h data = Some jsonString →
  ∃ m original compressed,
    compressData h data = VObj m
    ∧ m !! "_originalSize" = Some (VNum original)
    ∧ m !! "_compressedSize" = Some (VNum compressed)
    ∧ original = Z.of_nat (String.length jsonString)
    ∧ 0 ≤ compressed ≤ original.
Proof.
  intros Hs. rewrite (compressData_Some _ _ _ Hs).
  eexists _, _, _. split; [reflexivity |].
  split; [by simplify_map_eq |]. split; [by simplify_map_eq |].
  split; [done |]. pose proof (strip_whitespace_length jsonString). lia.
Qed.

Lemma compressData_sizes_witness :
  JSON_stringify browser (VObj sample_url) = Some (stringify (VObj sample_url))
  ∧ ∃ m original compressed,
    compressData browser (VObj sample_url) = VObj m
    ∧ m !! "_originalSize" = Some (VNum original)
    ∧ m !! "_compressedSize" = Some (VNum compressed)
    ∧ original = Z.of_nat (String.length (stringify (VObj sample_url)))
    ∧ 0 ≤ compressed ≤ original.
Proof.
  split; [reflexivity |].
  apply (compressData_sizes browser (VObj sample_url)). reflexivity.
Defined.

(** ** Settings *)

Lemma getSetting_memory k dflt w v :
  cache w !! ("setting_" +:+ k) = Some v →
  getSetting k dflt w = (Normal v, w).
Proof. intros Hc. unfold getSetting. run. by rewrite Hc. Qed.

(** What a successful [saveSetting] leaves in the durable tiers. *)
Lemma saveSetting_then_getSetting_aux h k v now w w1 :
  saveSetting h k v now w = (Normal true, w1) →
  localStorage w1 !! ("setting_" +:+ k) = Some (Json v)
  ∧ ∀ d1, db w1 = Some d1 → settings d1 !! k = Some (SettingEntry k v now).
Proof.
  unfold saveSetting. run.
  destruct w as [[d |] c e l]; cbn.
  - destruct (idb_refuses _ _ _ _); cbn; [done |].
    destruct (JSON_stringify h v); cbn; [| done].
    destruct (ls_refuses _ _ _ _); cbn; [done |].
    intros [= <-]. cbn. split; [by simplify_map_eq |].
    intros d1 [= <-]. cbn. by simplify_map_eq.
  - destruct (JSON_stringify h v); cbn; [| done].
    destruct (ls_refuses _ _ _ _); cbn; [done |].
    intros [= <-]. cbn. split; [by simplify_map_eq | done].
Qed.

(** X2.  [saveSetting] never throws.  When it answers [true] the value is
    in all three tiers (the settings store if there is a database, the
    memory cache, [localStorage]); when it answers [false] either the
    write to the settings store threw and nothing has changed, or
    [localStorage] refused the value after the database and the memory
    cache had taken it.  Whenever the memory cache has taken it,
    [getSetting] returns it, whatever the default, without touching the
    world. *)
Theorem saveSetting_then_getSetting h (k : string) (v dflt : value) (now : Z)
    (w : world) :
  ∃ b w1, saveSetting h k v now w = (Normal b, w1)
    ∧ (b = true →
         cache w1 !! ("setting_" +:+ k) = Some v
         ∧ localStorage w1 !! ("setting_" +:+ k) = Some (Json v)
         ∧ (∀ d1, db w1 = Some d1 →
                  settings d1 !! k = Some (SettingEntry k v now)))
    ∧ (b = false →
         w1 = w
         ∨ (cache w1 !! ("setting_" +:+ k) = Some v
            ∧ localStorage w1 = localStorage w
            ∧ throws (setItem_stringify h ("setting_" +:+ k) v) w1))
    ∧ (cache w1 !! ("setting_" +:+ k) = Some v →
       getSetting k dflt w1 = (Normal v, w1)).
Proof.
  assert (∀ w1, cache w1 !! ("setting_" +:+ k) = Some v →
                getSetting k dflt w1 = (Normal v, w1)) as Hget
    by (intros; by apply getSetting_memory).
  unfold saveSetting, throws. run.
  destruct w as [[d |] c e l]; cbn.
  - destruct (idb_refuses _ _ _ _) eqn:Hr; cbn.
    { eexists _, _. split; [reflexivity |]. split; [done |].
      split; [by left | (intros Hc; by apply Hget)]. }
    destruct (JSON_stringify h v) eqn:Hs; cbn.
    + destruct (ls_refuses _ _ _ _) eqn:Hl; cbn.
      * eexists _, _. split; [reflexivity |]. split; [done |].
        split; [| (intros Hc; by apply Hget)]. intros _. right. cbn.
        split; [by simplify_map_eq |]. split; [done |].
        rewrite ?Hl. by eexists _, _.
      * eexists _, _. split; [reflexivity |]. cbn.
        split; [| split; [done | (intros Hc; by apply Hget)]].
        intros _. split; [by simplify_map_eq |].
        split; [by simplify_map_eq |].
        intros d1 [= <-]. cbn. by simplify_map_eq.
    + eexists _, _. split; [reflexivity |]. split; [done |].
      split; [| (intros Hc; by apply Hget)]. intros _. right. cbn.
      split; [by simplify_map_eq |]. split; [done |].
      by eexists _, _.
  - destruct (JSON_stringify h v) eqn:Hs; cbn.
    + destruct (ls_refuses _ _ _ _) eqn:Hl; cbn.
      * eexists _, _. split; [reflexivity |]. split; [done |].
        split; [| (intros Hc; by apply Hget)]. intros _. right. cbn.
        split; [by simplify_map_eq |]. split; [done |].
        rewrite ?Hl. by eexists _, _.
      * eexists _, _. split; [reflexivity |]. cbn.
        split; [| split; [done | (intros Hc; by apply Hget)]].
        intros _. split; [by simplify_map_eq |].
        split; [by simplify_map_eq | done].
    + eexists _, _. split; [reflexivity |]. split; [done |].
      split; [| (intros Hc; by apply Hget)]. intros _. right. cbn.
      split; [by simplify_map_eq |]. split; [done |].
      by eexists _, _.
Qed.

(** X3.  A setting that no tier holds reads as the caller's default, and
    the read leaves the world as it is; an item of [localStorage] that is
    not JSON reads as its own text. *)
Theorem getSetting_default (k : string) (dflt : value) (w : world) :
  cache w !! ("setting_" +:+ k) = None →
  (∀ d, db w = Some d → settings d !! k = None) →
  match localStorage w !! ("setting_" +:+ k) with
  | None => getSetting k dflt w = (Normal dflt, w)
  | Some (Raw s) =>
      getSetting k dflt w
      = (Normal (if String.eqb s EmptyString then dflt else VStr s), w)
  | Some (Json v) =>
      getSetting k dflt w
      = (Normal v, set_cache (<["setting_" +:+ k := v]> (cache w)) w)
  end.
Proof.
  destruct w as [dd c e l]. cbn. intros Hc Hd.
  unfold getSetting. run. rewrite Hc.
  destruct dd as [d |]; cbn.
  - rewrite (Hd d eq_refl). cbn.
    destruct (l !! ("setting_" +:+ k)) as [[v | s] |]; cbn; try done.
    by destruct (String.eqb s EmptyString).
  - destruct (l !! ("setting_" +:+ k)) as [[v | s] |]; cbn; try done.
    by destruct (String.eqb s EmptyString).
Qed.

Lemma getSetting_default_witness :
  let w := World (Some empty_db) ∅ true {[ "setting_theme" := Raw "dark" ]} in
  cache w !! ("setting_" +:+ "theme") = None
  ∧ (∀ d, db w = Some d → settings d !! "theme" = None)
  ∧ getSetting "theme" (VStr "default") w = (Normal (VStr "dark"), w)
  ∧ getSetting "appMode" (VStr "online") w = (Normal (VStr "online"), w).
Proof.
  cbn zeta.
  assert (∀ k d, db (World (Some empty_db) ∅ true {[ "setting_theme" := Raw "dark" ]})
                 = Some d → settings d !! k = None) as Hd.
  { intros k d [= <-]. apply lookup_empty. }
  split; [apply lookup_empty |]. split; [apply Hd |]. split.
  - exact (getSetting_default "theme" (VStr "default") _ (lookup_empty _) (Hd _)).
  - exact (getSetting_default "appMode" (VStr "online") _ (lookup_empty _) (Hd _)).
Defined.

(** ** Clearing the cache *)

Lemma clearCache_run w :
  clearCache w =
    (Normal true,
     World (with_contents cacheStore ∅ <$> db w) ∅ (compressionEnabled w)
           (localStorage w)).
Proof. unfold clearCache. run_rest. by destruct w as [[d |] c e l]. Qed.

(** X4.  [clearCache] always answers [true].  It empties the cache store
    and the whole memory cache, the entries for URLs and settings
    included, and leaves [localStorage] and the other stores alone; after
    it every [getCache], at any time, answers [null] and changes
    nothing. *)
Theorem clearCache_then_getCache (w : world) :
  ∃ w', clearCache w = (Normal true, w')
    ∧ cache w' = ∅
    ∧ localStorage w' = localStorage w
    ∧ match db w, db w' with
      | Some d, Some d' =>
          cache_store d' = ∅ ∧ urls d' = urls d ∧ analytics d' = analytics d
          ∧ security d' = security d ∧ settings d' = settings d
      | None, None => True
      | _, _ => False
      end
    ∧ ∀ k now, getCache k now w' = (Normal VNull, w').
Proof.
  rewrite clearCache_run. eexists. split; [reflexivity |].
  destruct w as [[d |] c e l]; cbn; repeat split; try done;
    intros k now; unfold getCache; run; cbn; by rewrite ?lookup_empty.
Qed.

(** X5.  A setting that [saveSetting] reported saved survives the loss of
    the memory cache: after [clearCache], [getSetting] finds it again in
    the settings store, or without a database in [localStorage], returns
    it whatever the default, and puts it back into the memory cache. *)
Theorem setting_survives_clearCache h (k : string) (v dflt : value) (now : Z)
    (w w1 : world) :
  saveSetting h k v now w = (Normal true, w1) →
  ∃ w2 w3, clearCache w1 = (Normal true, w2)
    ∧ getSetting k dflt w2 = (Normal v, w3)
    ∧ cache w3 !! ("setting_" +:+ k) = Some v.
Proof.
  intros Hs.
  destruct (saveSetting_then_getSetting_aux h k v now w w1 Hs) as (Hl & Hd).
  rewrite clearCache_run.
  destruct w1 as [[d1 |] c1 e1 l1]; cbn in *.
  - specialize (Hd d1 eq_refl). eexists _, _. split; [reflexivity |].
    unfold getSetting. run. cbn.
    rewrite lookup_empty. cbn. rewrite Hd. cbn.
    split; [reflexivity |]. cbn. by simplify_map_eq.
  - eexists _, _. split; [reflexivity |].
    unfold getSetting. run. cbn. rewrite lookup_empty. cbn. rewrite Hl. cbn.
    split; [reflexivity |]. cbn. by simplify_map_eq.
Qed.

Lemma setting_survives_clearCache_witness :
  let w1 := (saveSetting browser "theme" (VStr "dark") 5 fresh_world).2 in
  saveSetting browser "theme" (VStr "dark") 5 fresh_world = (Normal true, w1)
  ∧ ∃ w2 w3, clearCache w1 = (Normal true, w2)
      ∧ getSetting "theme" VNull w2 = (Normal (VStr "dark"), w3)
      ∧ cache w3 !! ("setting_" +:+ "theme") = Some (VStr "dark").
Proof.
  cbn zeta.
  assert (saveSetting browser "theme" (VStr "dark") 5 fresh_world
          = (Normal true,
             (saveSetting browser "theme" (VStr "dark") 5 fresh_world).2)) as H
    by (vm_compute; reflexivity).
  split; [exact H |].
  apply (setting_survives_clearCache browser "theme" (VStr "dark") VNull 5
           fresh_world _ H).
Defined.

(** ** Clearing the URLs *)

Lemma foldl_delete_if_lookup {V} (P : string → bool) (ks : list string)
    (m : gmap string V) k :
  foldl (λ m k, if P k then delete k m else m) m ks !! k
  = if P k && bool_decide (k ∈ ks) then None else m !! k.
Proof.
  revert m. induction ks as [| a ks IH]; intros m; cbn [foldl].
  - rewrite bool_decide_eq_false_2 by apply not_elem_of_nil.
    by rewrite andb_false_r.
  - rewrite IH. destruct (P k) eqn:HP; cbn.
    + destruct (decide (k = a)) as [-> | Hne].
      * rewrite (bool_decide_eq_true_2 (a ∈ a :: ks)) by left.
        rewrite HP, lookup_delete_eq. by case_bool_decide.
      * case_bool_decide as Hin.
        -- by rewrite bool_decide_eq_true_2 by by right.
        -- rewrite bool_decide_eq_false_2 by by intros [? | ?]%elem_of_cons.
           destruct (P a); [by rewrite lookup_delete_ne | done].
    + destruct (P a) eqn:HPa; [| done].
      rewrite lookup_delete_ne; [done |]. intros ->. congruence.
Qed.

Lemma collect_keys_loop (P : string → bool) (ks acc : list string) w :
  for_of ks acc (λ keys k, ret (if P k then keys ++ [k] else keys)) w
  = (Normal (acc ++ filter (λ k, P k = true) ks), w).
Proof.
  revert acc. induction ks as [| a ks IH]; intros acc; cbn [for_of].
  - unfold ret. by rewrite filter_nil, app_nil_r.
  - unfold bind, ret at 1. rewrite IH. destruct (P a) eqn:HP.
    + rewrite filter_cons_True by done. by rewrite <- app_assoc.
    + rewrite filter_cons_False by congruence. done.
Qed.

Lemma removeItem_loop (ks : list string) w :
  for_of ks tt (λ _ k, removeItem k) w
  = (Normal tt,
     set_localStorage (foldl (λ l k, delete k l) (localStorage w) ks) w).
Proof.
  revert w. induction ks as [| a ks IH]; intros w; cbn [for_of foldl].
  - unfold ret, set_localStorage. by rewrite world_eta.
  - unfold bind, removeItem at 1. by rewrite IH.
Qed.

Lemma clearLocalStorageByPrefix_run prefix w :
  ∃ l', clearLocalStorageByPrefix prefix w = (Normal true, set_localStorage l' w)
    ∧ ∀ k, l' !! k =
           if negb (String.eqb k EmptyString) && String.prefix prefix k
           then None else localStorage w !! k.
Proof.
  unfold clearLocalStorageByPrefix, try_catch.
  rewrite bind_get_world.
  erewrite bind_run by apply collect_keys_loop.
  erewrite bind_run by apply removeItem_loop.
  unfold ret. eexists. split; [destruct w; reflexivity |].
  intros k. cbn [localStorage set_localStorage app].
  rewrite (foldl_delete_if_lookup (λ _, true)). cbn.
  set (P := λ k, negb (String.eqb k EmptyString) && String.prefix prefix k).
  fold (P k). destruct (P k) eqn:HP.
  - case_bool_decide as Hin; [done |].
    apply not_elem_of_dom. intros Hdom. apply Hin.
    apply list_elem_of_filter. split; [done |].
    apply elem_of_dom in Hdom as [i Hi].
    apply list_elem_of_fmap. exists (k, i). split; [done |].
    by apply elem_of_map_to_list.
  - rewrite bool_decide_eq_false_2; [done |].
    intros [HP' _]%list_elem_of_filter. unfold P in HP. cbn in HP'.
    congruence.
Qed.

Lemma cache_delete_loop (ks : list string) w :
  for_of ks tt
    (λ _ k, if String.prefix "url_" k then cache_delete k else ret tt) w
  = (Normal tt,
     set_cache (foldl (λ c k, if String.prefix "url_" k then delete k c else c)
                  (cache w) ks) w).
Proof.
  revert w. induction ks as [| a ks IH]; intros w; cbn [for_of foldl].
  - unfold ret, set_cache. by rewrite world_eta.
  - unfold bind. destruct (String.prefix "url_" a).
    + unfold cache_delete at 1. by rewrite IH.
    + unfold ret at 1. by rewrite IH.
Qed.

Lemma getURL_run id w :
  getURL id w = (Normal (getURL_outcome id w).1, (getURL_outcome id w).2).
Proof.
  unfold getURL, getURL_outcome, try_catch.
  rewrite bind_get_world. fold (url_cache_key id) (url_storage_key id).
  destruct (cache w !! url_cache_key id) as [data |]; [done |].
  assert (∀ w', localStorage w' = localStorage w → cache w' = cache w →
    (let! localData := getFromLocalStorage (url_storage_key id) in
     if truthy localData
     then cache_set (url_cache_key id) localData ;; ret localData
     else ret VNull) w'
    = (Normal (if truthy (read_item (localStorage w !! url_storage_key id))
               then read_item (localStorage w !! url_storage_key id)
               else VNull),
       if truthy (read_item (localStorage w !! url_storage_key id))
       then set_cache (<[url_cache_key id :=
                           read_item (localStorage w !! url_storage_key id)]>
                         (cache w)) w'
       else w')) as Hfb.
  { intros w' Hl Hc. erewrite bind_run by apply getFromLocalStorage_run.
    rewrite Hl. destruct (truthy _); [| done].
    unfold bind, cache_set, ret. by rewrite Hc. }
  destruct w as [[d |] c e l]; cbn [db mbind option_bind].
  - erewrite bind_run by reflexivity. cbn [contents urlsStore].
    destruct (urls d !! id) as [data |].
    + destruct (truthy data); [done |].
      rewrite Hfb by done. by destruct (truthy _).
    + rewrite Hfb by done. by destruct (truthy _).
  - erewrite bind_run by reflexivity.
    rewrite Hfb by done. by destruct (truthy _).
Qed.

Lemma ls_scan_none prefix (l : gmap string item) :
  (∀ k, String.prefix prefix k = true → l !! k = None) →
  ls_scan prefix (map_to_list l) = [].
Proof.
  intros Hl. destruct (ls_scan prefix (map_to_list l)) as [| v vs] eqn:Hs; [done |].
  assert (v ∈ ls_scan prefix (map_to_list l)) as Hv by (rewrite Hs; left).
  apply elem_of_ls_scan in Hv as (k & Hin & Hp & _).
  apply elem_of_map_to_list in Hin. by rewrite (Hl k Hp) in Hin.
Qed.

(** X6.  [clearAllURLs] always answers [true].  It empties the [urls]
    store, removes from the memory cache every key that starts with
    [url_] and from [localStorage] every key that starts with [urls_], and
    leaves every other key and store as it is; after it [getAllURLs] lists
    nothing and [getURL] answers [null] for every id. *)
Theorem clearAllURLs_then_read (w : world) :
  ∃ w', clearAllURLs w = (Normal true, w')
    ∧ (∀ k, cache w' !! k
            = if String.prefix "url_" k then None else cache w !! k)
    ∧ (∀ k, localStorage w' !! k
            = if String.prefix "urls_" k then None else localStorage w !! k)
    ∧ match db w, db w' with
      | Some d, Some d' =>
          urls d' = ∅ ∧ analytics d' = analytics d ∧ security d' = security d
          ∧ settings d' = settings d ∧ cache_store d' = cache_store d
      | None, None => True
      | _, _ => False
      end
    ∧ compressionEnabled w' = compressionEnabled w
    ∧ getAllURLs w' = (Normal [], w')
    ∧ ∀ id, getURL id w' = (Normal VNull, w').
Proof.
  set (w1 := World (with_contents urlsStore ∅ <$> db w) (cache w)
               (compressionEnabled w) (localStorage w)).
  assert (if_db (dbOperation_clear urlsStore) w = (Normal tt, w1)) as H1.
  { unfold w1. run_rest. by destruct w as [[d |] c e l]. }
  pose proof (cache_delete_loop (map_to_list (cache w1)).*1 w1) as H2.
  set (w2 := set_cache _ w1) in H2.
  destruct (clearLocalStorageByPrefix_run "urls_" w2) as (l' & H3 & Hl').
  exists (set_localStorage l' w2).
  assert (∀ k, cache w2 !! k
               = if String.prefix "url_" k then None else cache w !! k) as Hc.
  { intros k. unfold w2. cbn [cache set_cache].
    rewrite foldl_delete_if_lookup.
    destruct (String.prefix "url_" k); cbn; [| done].
    case_bool_decide as Hin; [done |].
    apply not_elem_of_dom. intros Hdom. apply Hin.
    apply elem_of_dom in Hdom as [v Hv].
    apply list_elem_of_fmap. exists (k, v). split; [done |].
    by apply elem_of_map_to_list. }
  assert (∀ k, l' !! k
               = if String.prefix "urls_" k then None else localStorage w !! k)
    as Hl.
  { intros k. rewrite Hl'. destruct (String.prefix "urls_" k) eqn:Hp.
    - destruct k; [done |]. done.
    - by rewrite andb_false_r. }
  split.
  { unfold clearAllURLs, try_catch.
    erewrite bind_run by exact H1. rewrite bind_get_world.
    erewrite bind_run by exact H2. erewrite bind_run by exact H3. done. }
  split; [exact Hc |]. split; [exact Hl |].
  split; [by destruct w as [[d |] c e l] |]. split; [done |].
  split.
  - assert (ls_scan "urls_" (map_to_list l') = []) as Hscan.
    { apply ls_scan_none. intros k Hp. by rewrite Hl, Hp. }
    destruct (db w) as [d |] eqn:Hd.
    + erewrite (getAllURLs_empty _ (with_contents urlsStore ∅ d)).
      * cbn. by rewrite Hscan.
      * by cbn; rewrite ?Hd.
      * done.
    + rewrite getAllURLs_fallback by (by cbn; rewrite ?Hd).
      cbn. by rewrite Hscan.
  - intros id. rewrite getURL_run. unfold getURL_outcome.
    cbn [cache set_localStorage localStorage db compressionEnabled].
    rewrite Hc, Hl. unfold url_cache_key, url_storage_key.
    rewrite !prefix_app. cbn [read_item truthy].
    destruct (db w) as [d |]; cbn; [by rewrite lookup_empty | done].
Qed.

(** ** Analytics *)

(** X7.  When [saveAnalytics urlId analyticsData] answers [true], the
    [getAnalytics urlId] that follows returns the record that was built and
    changes nothing: its [timestamp] is the time of the save whatever
    [analyticsData] says, its [urlId] is the one of [analyticsData] when it
    has one and the argument otherwise, every other field is that of
    [analyticsData]; with a database the record sits in the [analytics]
    store under the key its own [urlId] field gives. *)
Theorem saveAnalytics_then_getAnalytics (h : host)
    (urlId : key) (analyticsData : value) (now : Z) (w w1 : world) :
  saveAnalytics h urlId analyticsData now w = (Normal true, w1) →
  ∃ m, getAnalytics urlId w1 = (Normal (VObj m), w1)
    ∧ m !! "timestamp" = Some (VNum now)
    ∧ m !! "urlId"
      = Some (default (key_value urlId) (spread analyticsData !! "urlId"))
    ∧ (∀ f, f ≠ "timestamp" → f ≠ "urlId" → m !! f = spread analyticsData !! f)
    ∧ localStorage w1 = localStorage w
    ∧ match db w1 with
      | Some d =>
          ∃ k, as_key (m !! "urlId") = Some k ∧ analytics d !! k = Some (VObj m)
      | None => db w = None
      end.
Proof.
  intros Hsave.
  set (m := <["timestamp" := VNum now]>
              (spread analyticsData ∪ {[ "urlId" := key_value urlId ]})).
  assert (m !! "timestamp" = Some (VNum now)) as Ht
    by (unfold m; by rewrite lookup_insert_eq).
  assert (m !! "urlId"
          = Some (default (key_value urlId) (spread analyticsData !! "urlId")))
    as Hu.
  { unfold m. rewrite lookup_insert_ne by done.
    destruct (spread analyticsData !! "urlId") as [u |] eqn:Hsp.
    - by erewrite lookup_union_Some_l.
    - rewrite lookup_union_r by done. by rewrite lookup_singleton_eq. }
  assert (∀ f, f ≠ "timestamp" → f ≠ "urlId" →
               m !! f = spread analyticsData !! f) as Hf.
  { intros f H1 H2. unfold m. rewrite lookup_insert_ne by done.
    rewrite lookup_union_l; [done |]. by rewrite lookup_singleton_ne. }
  assert (∀ w', cache w' !! ("analytics_" +:+ key_string urlId) = Some (VObj m) →
                getAnalytics urlId w' = (Normal (VObj m), w')) as Hget.
  { intros w' Hc. unfold getAnalytics, try_catch. rewrite bind_get_world.
    by rewrite Hc. }
  exists m. unfold saveAnalytics, try_catch in Hsave. fold m in Hsave.
  destruct w as [[d |] c e l]; unfold bind at 1, if_db in Hsave;
    cbn [db] in Hsave.
  - unfold dbOperation_put in Hsave. cbn [db keyPath analyticsStore] in Hsave.
    rewrite Hu in Hsave.
    destruct (as_key (Some (default (key_value urlId)
                              (spread analyticsData !! "urlId"))))
      as [k |] eqn:Hk; [| done].
    cbn [storeName contents with_contents] in Hsave.
    destruct (idb_refuses h _ _ _); [done |].
    cbn in Hsave. injection Hsave as <-.
    split; [apply Hget; cbn; by rewrite lookup_insert_eq |].
    split; [done |]. split; [done |]. split; [done |]. split; [done |].
    cbn. exists k. rewrite Hu. split; [done |]. by rewrite lookup_insert_eq.
  - cbn in Hsave. injection Hsave as <-.
    split; [apply Hget; cbn; by rewrite lookup_insert_eq |]. done.
Qed.

Lemma saveAnalytics_then_getAnalytics_witness :
  saveAnalytics browser (KStr "abc")
    (VObj {[ "clicks" := VNum 1; "timestamp" := VNum 0 ]}) 7 fresh_world
  = (Normal true,
     (saveAnalytics browser (KStr "abc")
        (VObj {[ "clicks" := VNum 1; "timestamp" := VNum 0 ]}) 7 fresh_world).2)
  ∧ ∃ m, getAnalytics (KStr "abc")
           (saveAnalytics browser (KStr "abc")
              (VObj {[ "clicks" := VNum 1; "timestamp" := VNum 0 ]}) 7
              fresh_world).2
         = (Normal (VObj m),
            (saveAnalytics browser (KStr "abc")
               (VObj {[ "clicks" := VNum 1; "timestamp" := VNum 0 ]}) 7
               fresh_world).2)
      ∧ m !! "timestamp" = Some (VNum 7).
Proof.
  split; [vm_compute; reflexivity |].
  destruct (saveAnalytics_then_getAnalytics browser (KStr "abc")
              (VObj {[ "clicks" := VNum 1; "timestamp" := VNum 0 ]}) 7
              fresh_world
              (saveAnalytics browser (KStr "abc")
                 (VObj {[ "clicks" := VNum 1; "timestamp" := VNum 0 ]}) 7
                 fresh_world).2)
    as (m & Hget & Ht & _).
  - vm_compute; reflexivity.
  - exists m. by split.
Defined.

(** ** Security logs *)

Lemma used_db_log_keys : log_keys (security used_db).
Proof.
  intros k l. cbn. intros [<- <-]%lookup_singleton_Some. done.
Qed.

Lemma sorted_logs_split (logs : gmap Z securityLog) limit x y :
  x ∈ take limit (merge_sort newer (map_to_list logs).*2) →
  y ∈ drop limit (merge_sort newer (map_to_list logs).*2) →
  newer x y.
Proof.
  intros Hx Hy.
  eapply (StronglySorted_app_1_elem_of newer); [| exact Hx | exact Hy].
  rewrite take_drop. apply StronglySorted_merge_sort; apply _.
Qed.

(** X8.  With a database whose security logs are stored under their own
    ids, [getSecurityLogs limit] changes nothing and returns the [limit]
    most recent logs, or all of them when there are fewer: distinct logs of
    the store, latest first, and every log of the store that is left out is
    no more recent than any log returned. *)
Theorem getSecurityLogs_latest (limit : nat) (w : world) (d : IDB) :
  db w = Some d → log_keys (security d) →
  ∃ listed, getSecurityLogs limit w = (Normal listed, w)
    ∧ length listed = min limit (size (security d))
    ∧ NoDup listed ∧ StronglySorted newer listed
    ∧ (∀ x, x ∈ listed → security d !! log_id x = Some x)
    ∧ (∀ x k y, x ∈ listed → security d !! k = Some y → y ∉ listed →
                newer x y).
Proof.
  intros Hd Hk. rewrite getSecurityLogs_run, Hd.
  eexists. split; [reflexivity |].
  destruct (recent_logs (security d) limit Hk) as (Hnd & Hs & Hin).
  split.
  { rewrite length_take. f_equal.
    by rewrite merge_sort_Permutation, length_fmap, length_map_to_list. }
  split; [exact Hnd |]. split; [exact Hs |]. split; [exact Hin |].
  intros x k y Hx Hy Hny.
  apply (sorted_logs_split (security d) limit); [exact Hx |].
  assert (y ∈ merge_sort newer (map_to_list (security d)).*2) as Hall.
  { rewrite merge_sort_Permutation. apply list_elem_of_fmap.
    exists (k, y). split; [done |]. by apply elem_of_map_to_list. }
  rewrite <- (take_drop limit) in Hall.
  apply elem_of_app in Hall as [Hin' | Hin']; [by destruct Hny | done].
Qed.

Lemma getSecurityLogs_latest_witness :
  db used_world = Some used_db ∧ log_keys (security used_db)
  ∧ ∃ listed, getSecurityLogs 100 used_world = (Normal listed, used_world)
      ∧ length listed = 1%nat.
Proof.
  split; [reflexivity |]. split; [exact used_db_log_keys |].
  destruct (getSecurityLogs_latest 100 used_world used_db eq_refl
              used_db_log_keys) as (listed & Hrun & Hlen & _).
  exists listed. split; [exact Hrun |]. rewrite Hlen. reflexivity.
Defined.

(** X9.  With a database, [cleanupSecurityLogs] removes from the security
    store exactly the logs written thirty days or more before the call,
    returns how many they were, and touches nothing else; from then on
    [getSecurityLogs] lists only logs that are less than thirty days old. *)
Theorem cleanupSecurityLogs_exact (now : Z) (w : world) (d : IDB) :
  db w = Some d →
  ∃ d' n, cleanupSecurityLogs now w = (Normal n, set_db d' w)
    ∧ (∀ k, security d' !! k =
            match security d !! k with
            | Some l =>
                if decide (log_timestamp l ≤ now - thirtyDays) then None
                else Some l
            | None => None
            end)
    ∧ (size (security d') + n)%nat = size (security d)
    ∧ urls d' = urls d ∧ analytics d' = analytics d
    ∧ settings d' = settings d ∧ cache_store d' = cache_store d
    ∧ ∀ limit listed w',
        getSecurityLogs limit (set_db d' w) = (Normal listed, w') →
        w' = set_db d' w
        ∧ ∀ x, x ∈ listed → now - thirtyDays < log_timestamp x.
Proof.
  destruct w as [dd c e l]. cbn [db]. intros ->.
  set (swept := cursor_delete
                  (upperBound log_timestamp (now - thirtyDays) (security d))
                  (security d) O).
  exists (with_contents securityStore swept.1 d), swept.2.
  split; [unfold cleanupSecurityLogs; by run |].
  cbn [with_contents securityStore security urls analytics settings cache_store].
  split; [intros k; apply sweep_lookup |].
  split; [apply sweep_size |].
  split; [done |]. split; [done |]. split; [done |]. split; [done |].
  intros limit listed w'. rewrite getSecurityLogs_run.
  cbn [db set_db security].
  intros [= <- <-]. split; [done |]. intros x Hx.
  pose proof (elem_of_sublist _ _ _ Hx (sublist_take _ _)) as Hx'.
  rewrite merge_sort_Permutation in Hx'.
  apply list_elem_of_fmap in Hx' as [[k lg] [-> Hin]].
  apply elem_of_map_to_list in Hin. unfold swept in Hin.
  rewrite sweep_lookup in Hin. cbn.
  destruct (security d !! k) as [lg' |]; [| done].
  case_decide as Hle; [done |]. injection Hin as ->. lia.
Qed.

Lemma cleanupSecurityLogs_exact_witness :
  db used_world = Some used_db
  ∧ ∃ d' n, cleanupSecurityLogs 3000000000 used_world
            = (Normal n, set_db d' used_world)
      ∧ (size (security d') + n)%nat = size (security used_db).
Proof.
  split; [reflexivity |].
  destruct (cleanupSecurityLogs_exact 3000000000 used_world used_db eq_refl)
    as (d' & n & Hrun & _ & Hsize & _).
  by exists d', n.
Defined.

(** ** Reading after a deletion *)

Lemma deleteURL_run (id : key) w :
  deleteURL (Some (key_value id)) w
  = (Normal true,
     World ((λ d, with_contents urlsStore (delete id (urls d)) d) <$> db w)
       (delete (url_cache_key id) (cache w)) (compressionEnabled w)
       (delete (url_storage_key id) (localStorage w))).
Proof.
  unfold deleteURL, removeFromLocalStorage, urls_delete.
  destruct id; run; by destruct w as [[d |] c e l].
Qed.

Lemma key_string_app_inj p a b : p +:+ a = p +:+ b → a = b.
Proof. induction p as [| c p IH]; cbn; [done |]. intros [=]. by apply IH. Qed.

Lemma used_world_well_formed : well_formed used_world.
Proof.
  split.
  - intros d Hd. by apply used_world_keys.
  - intros sk v id Hl _ Hid. cbn in Hl.
    apply lookup_singleton_Some in Hl as [<- [= <-]].
    vm_compute in Hid. injection Hid as <-. reflexivity.
Qed.

(** X10.  In a world whose URL records are stored under their own ids,
    [deleteURL id] is followed by a [getURL id] that answers [null] and
    changes nothing, and by a [getAllURLs] that lists no record with that
    id; a record whose id is written differently is read as before. *)
Theorem deleteURL_then_read (id : key) (w : world) :
  well_formed w →
  ∃ w', deleteURL (Some (key_value id)) w = (Normal true, w')
    ∧ getURL id w' = (Normal VNull, w')
    ∧ (∃ listed w'', getAllURLs w' = (Normal listed, w'')
         ∧ ∀ v, v ∈ listed → ¬ has_id id v)
    ∧ ∀ id' r w2, key_string id' ≠ key_string id →
        getURL id' w = (Normal r, w2) →
        ∃ w2', getURL id' w' = (Normal r, w2').
Proof.
  intros [Hinl Hmir]. eexists. split; [apply deleteURL_run |].
  set (w' := World _ _ _ _).
  split; [| split].
  - rewrite getURL_run. unfold getURL_outcome, w'.
    cbn [cache localStorage db compressionEnabled].
    rewrite !lookup_delete_eq. cbn [read_item truthy].
    destruct (db w) as [d |]; cbn; [by rewrite lookup_delete_eq | done].
  - assert (∀ v, v ∈ ls_scan "urls_" (map_to_list (localStorage w')) →
                 ¬ has_id id v) as Hscan.
    { intros v (k & Hin & Hp & _)%elem_of_ls_scan Hid.
      apply elem_of_map_to_list in Hin. unfold w' in Hin. cbn in Hin.
      apply lookup_delete_Some in Hin as [Hne Hin].
      by pose proof (Hmir _ _ _ Hin Hp Hid). }
    destruct (db w) as [d |] eqn:Hd.
    + set (d' := with_contents urlsStore (delete id (urls d)) d).
      assert (db w' = Some d') as Hd' by (by unfold w'; rewrite ?Hd).
      destruct (decide (urls d' = ∅)) as [He | Hne].
      * eexists _, _. split; [by apply (getAllURLs_empty w' d') |]. exact Hscan.
      * destruct (getAllURLs_database w' d' Hd' Hne) as (c' & Hall & _).
        { intros k v Hv ->. cbn in Hv.
          apply lookup_delete_Some in Hv as [_ Hv].
          by pose proof (Hinl d eq_refl _ _ Hv). }
        eexists _, _. split; [exact Hall |].
        intros v (v0 & -> & [[k v1] [-> Hin]]%list_elem_of_fmap)%list_elem_of_fmap.
        apply elem_of_map_to_list in Hin. cbn in Hin.
        apply lookup_delete_Some in Hin as [Hne' Hin]. cbn.
        unfold has_id. rewrite record_id_on_read, (Hinl d eq_refl _ _ Hin).
        congruence.
    + eexists _, _.
      split; [apply getAllURLs_fallback; by unfold w'; rewrite ?Hd |].
      exact Hscan.
  - intros id' r w2 Hne. rewrite !getURL_run. intros [= <- _].
    eexists. f_equal. f_equal.
    assert (id' ≠ id) as Hid by congruence.
    assert (url_cache_key id' ≠ url_cache_key id) as Hck
      by (intros Heq%key_string_app_inj; done).
    assert (url_storage_key id' ≠ url_storage_key id) as Hsk
      by (intros Heq%key_string_app_inj; done).
    unfold getURL_outcome, w'.
    cbn [cache localStorage db compressionEnabled].
    rewrite !lookup_delete_ne by done.
    destruct (cache w !! url_cache_key id'); [done |].
    destruct (db w) as [d |]; cbn [fmap option_fmap option_map mbind option_bind].
    + cbn [urls with_contents urlsStore]. rewrite lookup_delete_ne by done.
      destruct (urls d !! id') as [data |];
        [destruct (truthy data); [done |] |]; by destruct (truthy _).
    + by destruct (truthy _).
Qed.

Lemma deleteURL_then_read_witness :
  well_formed used_world
  ∧ ∃ w', deleteURL (Some (VNum 1)) used_world = (Normal true, w')
      ∧ getURL (KNum 1) w' = (Normal VNull, w').
Proof.
  split; [exact used_world_well_formed |].
  destruct (deleteURL_then_read (KNum 1) used_world used_world_well_formed)
    as (w' & Hdel & Hget & _).
  by exists w'.
Defined.

(** ** Reading a URL twice *)

Lemma on_read_idemp e v : on_read e (on_read e v) = on_read e v.
Proof.
  destruct e; [| done]. destruct v as [| | | | | m]; try done.
  cbn [on_read decompressData].
  destruct (truthy_prop (m !! "_compressed")) eqn:Hm.
  - cbn [decompressData].
    by rewrite !lookup_delete_ne, lookup_delete_eq by done.
  - cbn [decompressData]. by rewrite Hm.
Qed.

(** X11.  [getURL] never throws, and a second [getURL] of the same id is
    answered from the memory cache without changing anything.  It returns
    the first answer passed through the toggle once more: the same record
    up to the bookkeeping properties, and exactly the same unless the first
    answer came from [localStorage] still carrying the marker. *)
Theorem getURL_again (id : key) (w : world) :
  ∃ r w1, getURL id w = (Normal r, w1)
    ∧ getURL id w1 = (Normal (on_read (compressionEnabled w) r), w1)
    ∧ same_up_to_compression (on_read (compressionEnabled w) r) r
    ∧ (r ≠ VNull → ∃ data, cache w1 !! url_cache_key id = Some data)
    ∧ ((cache w !! url_cache_key id ≠ None
        ∨ ∃ d data, db w = Some d ∧ urls d !! id = Some data
                    ∧ truthy data = true) →
       on_read (compressionEnabled w) r = r).
Proof.
  eexists _, _. split; [apply getURL_run |].
  split; [| split; [apply strip_value_on_read |]].
  - rewrite getURL_run. unfold getURL_outcome.
    destruct (cache w !! url_cache_key id) as [data |] eqn:Hc.
    { cbn [fst snd]. by rewrite Hc, on_read_idemp. }
    destruct (db w ≫= (λ d, urls d !! id)) as [data |] eqn:Hdb.
    + destruct (truthy data) eqn:Ht.
      * cbn [fst snd cache set_cache compressionEnabled].
        by rewrite lookup_insert_eq, on_read_idemp.
      * destruct (truthy (read_item _)) eqn:Hl.
        -- cbn [fst snd cache set_cache compressionEnabled].
           by rewrite lookup_insert_eq.
        -- cbn [fst snd]. rewrite Hc, Hdb, Ht, Hl. by destruct (compressionEnabled w).
    + destruct (truthy (read_item _)) eqn:Hl.
      * cbn [fst snd cache set_cache compressionEnabled].
        by rewrite lookup_insert_eq.
      * cbn [fst snd]. rewrite Hc, Hdb, Hl. by destruct (compressionEnabled w).
  - split.
    + unfold getURL_outcome.
      destruct (cache w !! url_cache_key id) as [data |] eqn:Hc.
      { by eexists. }
      destruct (db w ≫= (λ d, urls d !! id)) as [data |] eqn:Hdb.
      * destruct (truthy data) eqn:Ht.
        -- cbn. intros _. rewrite lookup_insert_eq. by eexists.
        -- destruct (truthy (read_item _)) eqn:Hl; cbn; [| done].
           intros _. rewrite lookup_insert_eq. by eexists.
      * destruct (truthy (read_item _)) eqn:Hl; cbn; [| done].
        intros _. rewrite lookup_insert_eq. by eexists.
    + unfold getURL_outcome.
      destruct (cache w !! url_cache_key id) as [data |] eqn:Hc.
      { intros _. apply on_read_idemp. }
      intros [? | (d & data & Hd & Hu & Ht)]; [done |].
      rewrite Hd. cbn [mbind option_bind]. rewrite Hu, Ht. apply on_read_idemp.
Qed.

(** ** The application's [saveUrls] *)

Lemma grown_refl w : grown w w.
Proof.
  unfold grown. split; [done |]. split; [done |]. split; [done |].
  by destruct (db w).
Qed.

Lemma grown_trans w1 w2 w3 : grown w1 w2 → grown w2 w3 → grown w1 w3.
Proof.
  intros (He & Hc & Hl & Hd) (He' & Hc' & Hl' & Hd').
  split; [congruence |]. split; [set_solver |]. split; [set_solver |].
  destruct (db w1) as [d1 |], (db w2) as [d2 |], (db w3) as [d3 |]; try done.
  destruct Hd as (? & ? & ? & ? & ?), Hd' as (? & ? & ? & ? & ?).
  split; [set_solver |]. repeat split; congruence.
Qed.

Lemma mirror_grown h sk v w :
  grown w (mirror h sk v w)
  ∧ ∀ k, k ≠ sk → localStorage (mirror h sk v w) !! k = localStorage w !! k.
Proof.
  split; [| intros k Hk; by apply mirror_localStorage].
  destruct (mirror_kept h sk v w) as (He & Hd & Hc & Hl).
  split; [done |]. split; [by rewrite Hc |]. split; [done |].
  rewrite Hd. by destruct (db w).
Qed.

Lemma saveURL_step h u w :
  grown w (saveURL_outcome h u w).2 ∧ untouched h [u] w (saveURL_outcome h u w).2.
Proof.
  unfold saveURL_outcome, urls_put.
  assert (∀ w1 id,
    compressionEnabled w1 = compressionEnabled w → grown w w1 →
    (∀ k, record_id (on_save h (compressionEnabled w) u) ≠ Some k →
          db w1 ≫= (λ d, urls d !! k) = db w ≫= (λ d, urls d !! k)) →
    cache w1 = cache w → localStorage w1 = localStorage w →
    get_prop u "id" = Normal id →
    let w2 := mirror h ("urls_" +:+ template id)
                (on_save h (compressionEnabled w) u)
                (set_cache (<["url_" +:+ template id :=
                               on_save h (compressionEnabled w) u]> (cache w1))
                   w1) in
    grown w w2 ∧ untouched h [u] w w2) as Hok.
  { intros w1 id He Hg Hu Hc Hl Hid w2.
    destruct (mirror_grown h ("urls_" +:+ template id)
                (on_save h (compressionEnabled w) u)
                (set_cache (<["url_" +:+ template id :=
                               on_save h (compressionEnabled w) u]> (cache w1))
                   w1)) as [Hm Hf].
    fold w2 in Hm, Hf. split.
    - eapply grown_trans; [| exact Hm].
      eapply grown_trans; [exact Hg |].
      split; [done |]. split; [cbn; rewrite dom_insert; set_solver |].
      split; [done |]. cbn. by destruct (db w1).
    - destruct Hm as (_ & _ & _ & Hdb). cbn [db set_cache] in Hdb.
      split; [| split].
      + intros k Hk. rewrite <- Hu by (apply Hk; left).
        destruct (mirror_kept h ("urls_" +:+ template id)
                (on_save h (compressionEnabled w) u)
                (set_cache (<["url_" +:+ template id :=
                               on_save h (compressionEnabled w) u]> (cache w1))
                   w1)) as (_ & Hd & _). fold w2 in Hd. by rewrite Hd.
      + intros ck Hck.
        destruct (mirror_kept h ("urls_" +:+ template id)
                (on_save h (compressionEnabled w) u)
                (set_cache (<["url_" +:+ template id :=
                               on_save h (compressionEnabled w) u]> (cache w1))
                   w1)) as (_ & _ & Hc' & _). fold w2 in Hc'. rewrite Hc'. cbn.
        rewrite lookup_insert_ne, Hc; [done |].
        intros Heq. by apply (Hck u id); [left | |].
      + intros sk Hsk. rewrite Hf; [by cbn; rewrite Hl |].
        by apply (Hsk u id); [left |]. }
  assert (untouched h [u] w w) as Hsame by (by repeat split).
  destruct (db w) as [d |] eqn:Hd; cbn [fmap option_fmap option_map].
  - destruct (record_id (on_save h (compressionEnabled w) u)) as [k |] eqn:Hk;
      cbn [fmap option_fmap option_map]; [| split; [apply grown_refl | done]].
    destruct (idb_refuses _ _ _ _); cbn [fmap option_fmap option_map];
      [split; [apply grown_refl | done] |].
    assert (grown w (set_db (with_contents urlsStore
              (<[k := on_save h (compressionEnabled w) u]> (urls d)) d) w))
      as Hg.
    { split; [done |]. split; [done |]. split; [done |]. rewrite Hd. cbn.
      split; [rewrite dom_insert; set_solver | done]. }
    assert (∀ k0, record_id (on_save h (compressionEnabled w) u) ≠ Some k0 →
      db (set_db (with_contents urlsStore
              (<[k := on_save h (compressionEnabled w) u]> (urls d)) d) w)
        ≫= (λ d0, urls d0 !! k0) = db w ≫= (λ d0, urls d0 !! k0)) as Hu.
    { intros k0 Hk0. rewrite Hd. cbn. rewrite lookup_insert_ne; [done |].
      congruence. }
    destruct (get_prop u "id") as [id | err] eqn:Hid; cbn [snd].
    + apply Hok.
      * done.
      * exact Hg.
      * intros k0 Hk0. rewrite Hu by (by rewrite Hk). by rewrite Hd.
      * done.
      * done.
      * done.
    + split; [exact Hg |]. split; [| by split].
      intros k0 Hk0. apply Hu, Hk0. left.
  - destruct (get_prop u "id") as [id | err] eqn:Hid; cbn [snd].
    + apply Hok; try done; [apply grown_refl | by rewrite Hd].
    + split; [apply grown_refl | done].
Qed.

Lemma untouched_trans h u rest w w1 w2 :
  compressionEnabled w1 = compressionEnabled w →
  untouched h [u] w w1 → untouched h rest w1 w2 → untouched h (u :: rest) w w2.
Proof.
  intros He (Hu & Hc & Hl) (Hu' & Hc' & Hl'). rewrite He in Hu'.
  split; [| split].
  - intros k Hk. rewrite Hu', Hu; [done | |].
    + intros x ->%list_elem_of_singleton. apply Hk. left.
    + intros x Hx. apply Hk. by right.
  - intros ck Hk. rewrite Hc', Hc; [done | |].
    + intros x id ->%list_elem_of_singleton. apply Hk. left.
    + intros x id Hx. apply Hk. by right.
  - intros sk Hk. rewrite Hl', Hl; [done | |].
    + intros x id ->%list_elem_of_singleton. apply Hk. left.
    + intros x id Hx. apply Hk. by right.
Qed.

Lemma saveUrls_loop h saved w :
  ∃ w', for_of saved tt (λ _ url, saveURL h url ;; ret tt) w = (Normal tt, w')
    ∧ grown w w' ∧ untouched h saved w w'.
Proof.
  revert w. induction saved as [| u rest IH]; intros w.
  - exists w. split; [done |]. split; [apply grown_refl | by repeat split].
  - cbn [for_of].
    destruct (saveURL_step h u w) as [Hg Hu].
    destruct (IH (saveURL_outcome h u w).2) as (w' & Hrun & Hg' & Hu').
    exists w'. split.
    + erewrite bind_run; [exact Hrun |].
      erewrite bind_run by apply saveURL_run. done.
    + split; [by eapply grown_trans |].
      eapply untouched_trans; [| exact Hu | exact Hu']. by destruct Hg.
Qed.

(** X12.  [saveUrls] never throws and never removes anything: whatever
    list it is given, every key of the memory cache, of [localStorage] and
    of the [urls] store is still present afterwards, the other stores are
    unchanged, and what is not stored under the key of a record of the
    list is left exactly as it was; a record dropped from the list before
    the call stays where it was in every tier. *)
Theorem saveUrls_never_removes (h : host) (saved : list value) (w : world) :
  ∃ w', saveUrls h saved w = (Normal tt, w')
    ∧ grown w w' ∧ untouched h saved w w'.
Proof.
  destruct (saveUrls_loop h saved w) as (w' & Hrun & Hg & Hu).
  exists w'. split; [| by split].
  unfold saveUrls, try_catch. by rewrite Hrun.
Qed.

(** ** Listing, export and import *)

Lemma set_cache_same w : set_cache (cache w) w = w.
Proof. unfold set_cache. apply world_eta. Qed.

Lemma getAllURLs_frame w :
  ∃ l c', getAllURLs w = (Normal l, set_cache c' w) ∧ dom (cache w) ⊆ dom c'.
Proof.
  destruct (db w) as [d |] eqn:Hd.
  - unfold getAllURLs, try_catch. rewrite bind_get_world, Hd.
    unfold bind at 1, bind at 1, dbOperation_getAll. rewrite Hd.
    cbn [contents urlsStore].
    destruct (0 <? length (map_to_list (urls d)).*2)%nat.
    + unfold bind at 1.
      destruct (cache_urls_loop (map_to_list (urls d)).*2 w)
        as (r & c' & Hloop & Hdom & _).
      rewrite Hloop. destruct r as [[] | e]; by eexists _, c'.
    + unfold ret at 1. rewrite getAllFromLocalStorage_run.
      eexists _, (cache w). by rewrite set_cache_same.
  - rewrite getAllURLs_fallback by done.
    eexists _, (cache w). by rewrite set_cache_same.
Qed.

(** X13.  [getAllURLs] never throws, and all it changes is the memory
    cache, to which it only adds; the application's [loadUrls] is the same
    call. *)
Theorem getAllURLs_only_caches (w : world) :
  ∃ listed w', getAllURLs w = (Normal listed, w')
    ∧ loadUrls w = (Normal listed, w')
    ∧ db w' = db w ∧ localStorage w' = localStorage w
    ∧ compressionEnabled w' = compressionEnabled w
    ∧ dom (cache w) ⊆ dom (cache w')
    ∧ ((db w = None ∨ ∃ d, db w = Some d ∧ urls d = ∅) →
       w' = w ∧ listed = ls_scan "urls_" (map_to_list (localStorage w))).
Proof.
  destruct (getAllURLs_frame w) as (l & c' & Hrun & Hdom).
  exists l, (set_cache c' w). split; [exact Hrun |].
  split; [unfold loadUrls, try_catch; by rewrite Hrun |].
  split; [done |]. split; [done |]. split; [done |]. split; [done |].
  intros [Hd | (d & Hd & He)].
  - rewrite getAllURLs_fallback in Hrun by done. by injection Hrun as <- <-.
  - rewrite (getAllURLs_empty w d) in Hrun by done. by injection Hrun as <- <-.
Qed.

Lemma export_settings_loop (kvs : list (string * settingEntry))
    (acc : gmap string value) k :
  (∀ k0 s, (k0, s) ∈ kvs → se_key s = k0) → NoDup kvs.*1 →
  foldl assign_setting acc kvs.*2 !! k
  = match (list_to_map kvs : gmap string settingEntry) !! k with
    | Some s => if String.eqb k "__proto__" then acc !! k
                else Some (se_value s)
    | None => acc !! k
    end.
Proof.
  revert acc. induction kvs as [| [k0 s0] rest IH]; intros acc Hk Hnd.
  - done.
  - cbn [fmap list_fmap foldl snd]. cbn in Hnd.
    apply NoDup_cons in Hnd as [Hk0 Hnd].
    rewrite IH; [| intros; apply Hk; by right | done].
    unfold assign_setting at 1 2.
    rewrite (Hk k0 s0) by left. cbn [list_to_map foldr uncurry curry fst snd].
    destruct (decide (k = k0)) as [-> | Hne].
    + rewrite lookup_insert_eq.
      rewrite (not_elem_of_list_to_map_1 _ _ Hk0).
      destruct (String.eqb k0 "__proto__"); [done |].
      by rewrite lookup_insert_eq.
    + rewrite lookup_insert_ne by done.
      destruct (String.eqb k0 "__proto__"); [done |].
      by rewrite lookup_insert_ne.
Qed.

Lemma configured_world_keys :
  ∀ d, db configured_world = Some d → setting_keys (settings d).
Proof.
  intros d [= <-] k s. cbn.
  intros [[<- <-] | [_ [<- <-]%lookup_singleton_Some]]%lookup_insert_Some; done.
Qed.

(** X14.  With the settings stored under their own keys, [exportAllData]
    answers an export: its list of URLs is the one [getAllURLs] gives, its
    settings have as own properties every setting of the settings store
    under its key with its value, except a setting named [__proto__],
    which the assignment of line 761 does not turn into a property, and
    nothing else (nothing at all without a database); the metadata carry
    the date, version [2.0] and the compression toggle.  Like [getAllURLs]
    it changes nothing but the memory cache. *)
Theorem exportAllData_content (date : string) (w : world) :
  (∀ d, db w = Some d → setting_keys (settings d)) →
  ∃ ex w', exportAllData date w = (Normal (Some ex), w')
    ∧ getAllURLs w = (Normal (ex_urls ex), w')
    ∧ ex_metadata ex = ExportMetadata date "2.0" (compressionEnabled w)
    ∧ ex_settings ex !! "__proto__" = None
    ∧ ∀ k, k ≠ "__proto__" →
           ex_settings ex !! k
           = db w ≫= (λ d, se_value <$> settings d !! k).
Proof.
  intros Hkeys. destruct (getAllURLs_frame w) as (l & c' & Hrun & _).
  unfold exportAllData, try_catch.
  erewrite bind_run by exact Hrun. rewrite bind_get_world.
  cbn [db set_cache compressionEnabled].
  destruct (db w) as [d |] eqn:Hd.
  - unfold bind at 1, bind at 1, dbOperation_getAll. cbn [db set_cache].
    rewrite Hd. cbn [contents settingsStore]. unfold ret.
    eexists _, _. split; [reflexivity |]. cbn [ex_urls ex_metadata ex_settings].
    split; [exact Hrun |]. split; [done |].
    assert (∀ k, foldl assign_setting ∅ (map_to_list (settings d)).*2 !! k
                 = match settings d !! k with
                   | Some s => if String.eqb k "__proto__" then None
                               else Some (se_value s)
                   | None => None
                   end) as Hfold.
    { intros k. rewrite export_settings_loop.
      - rewrite list_to_map_to_list.
        destruct (settings d !! k); by rewrite ?lookup_empty.
      - intros k0 s Hin%elem_of_map_to_list. by apply (Hkeys d).
      - apply NoDup_fst_map_to_list. }
    split.
    + rewrite Hfold. by destruct (settings d !! "__proto__").
    + intros k Hk. rewrite Hfold. cbn.
      destruct (settings d !! k); [| done].
      destruct (String.eqb_spec k "__proto__"); done.
  - unfold bind at 1, ret.
    eexists _, _. split; [reflexivity |]. cbn [ex_urls ex_metadata ex_settings].
    split; [exact Hrun |]. split; [done |].
    split; [done |]. intros k _. by rewrite lookup_empty.
Qed.

Lemma exportAllData_content_witness :
  (∀ d, db configured_world = Some d → setting_keys (settings d))
  ∧ ∃ ex w', exportAllData "2026-01-01T00:00:00.000Z" configured_world
             = (Normal (Some ex), w')
      ∧ ex_settings ex !! "theme" = Some (VStr "dark").
Proof.
  split; [exact configured_world_keys |].
  destruct (exportAllData_content "2026-01-01T00:00:00.000Z" configured_world
              configured_world_keys) as (ex & w' & Hrun & _ & _ & _ & Hs).
  exists ex, w'. split; [exact Hrun |]. rewrite Hs by done. reflexivity.
Defined.

(** A setting named [__proto__], which [saveSetting] stores like any
    other, is not in the export. *)
Example export_without_proto :
  let w := World (Some (Idb ∅ ∅ ∅
                          {[ "__proto__" := SettingEntry "__proto__" (VNum 1) 5;
                             "theme" := SettingEntry "theme" (VStr "dark") 6 ]}
                          ∅)) ∅ true ∅ in
  (exportAllData "2026-01-01T00:00:00.000Z" w).1
  = Normal (Some (ExportData [] {[ "theme" := VStr "dark" ]}
                    (ExportMetadata "2026-01-01T00:00:00.000Z" "2.0" true))).
Proof. cbn zeta. vm_compute. reflexivity. Qed.

Lemma import_urls_loop h (l : list value) r w :
  ∃ w', for_of l r
          (λ r url,
             try_catch
               (saveURL h url ;;
                ret (ImportResults (S (im_urls r)) (im_settings r)
                       (im_errors r)))
               (λ e,
                  let! id := lift (get_prop url "id") in
                  ret (ImportResults (im_urls r) (im_settings r)
                         (im_errors r
                          ++ [ImportError ("URL " +:+ template id) e])))) w
        = (Normal (ImportResults (im_urls r + length l) (im_settings r)
                     (im_errors r)), w').
Proof.
  revert r w. induction l as [| u l IH]; intros r w; cbn [for_of].
  - exists w. unfold ret. destruct r. cbn. by rewrite Nat.add_0_r.
  - unfold bind at 1, try_catch at 1.
    erewrite bind_run by apply saveURL_run. unfold ret at 1.
    destruct (IH (ImportResults (S (im_urls r)) (im_settings r) (im_errors r))
                (saveURL_outcome h u w).2) as (w' & ->).
    exists w'. cbn. do 3 f_equal. lia.
Qed.

Lemma import_settings_loop h now (l : list (string * value)) r w :
  ∃ w', for_of l r
          (λ r kv,
             try_catch
               (saveSetting h kv.1 kv.2 now ;;
                ret (ImportResults (im_urls r) (S (im_settings r))
                       (im_errors r)))
               (λ e,
                  ret (ImportResults (im_urls r) (im_settings r)
                         (im_errors r
                          ++ [ImportError ("setting " +:+ kv.1) e])))) w
        = (Normal (ImportResults (im_urls r) (im_settings r + length l)
                     (im_errors r)), w').
Proof.
  revert r w. induction l as [| kv l IH]; intros r w; cbn [for_of].
  - exists w. unfold ret. destruct r. cbn. by rewrite Nat.add_0_r.
  - unfold bind at 1, try_catch at 1.
    destruct (saveSetting_localStorage h kv.1 kv.2 now w) as (b & w1 & Hs & _).
    erewrite bind_run by exact Hs. unfold ret at 1.
    destruct (IH (ImportResults (im_urls r) (S (im_settings r)) (im_errors r))
                w1) as (w' & ->).
    exists w'. cbn. do 3 f_equal. lia.
Qed.

(** X15.  [importAllData] never throws.  It answers [null] for [null] and
    changes nothing then; for any other value it answers the counts, which
    do not depend on whether a save succeeded: [urls] is the length of the
    array under [urls] (zero when that is no array), [settings] is the
    number of entries of the value under [settings] (zero when that is
    falsy), and [errors] is always empty, since neither [saveURL] nor
    [saveSetting] throws. *)
Theorem importAllData_counts
    (h : host) (importData : value) (now : Z) (w : world) :
  ∃ r w', importAllData h importData now w = (Normal r, w')
    ∧ match get_prop importData "urls", get_prop importData "settings" with
      | Normal urls, Normal settings =>
          r = Some (ImportResults
                      match urls with
                      | Some (VArr l) => length l
                      | _ => 0%nat
                      end
                      (if truthy_prop settings
                       then size (spread (default VNull settings)) else 0%nat)
                      [])
      | _, _ => importData = VNull ∧ r = None ∧ w' = w
      end.
Proof.
  unfold importAllData, try_catch.
  destruct (get_prop importData "urls") as [urls | e] eqn:Hu.
  2:{ apply get_prop_throws in Hu as [-> ->]. by eexists _, _. }
  destruct (get_prop importData "settings") as [settings | e] eqn:Hs.
  2:{ apply get_prop_throws in Hs as [-> _]. done. }
  unfold bind at 1, lift at 1.
  assert (∃ w1,
    match urls with
    | Some (VArr l) =>
        for_of l (ImportResults O O [])
          (λ r url,
             try_catch
               (saveURL h url ;;
                ret (ImportResults (S (im_urls r)) (im_settings r)
                       (im_errors r)))
               (λ e,
                  let! id := lift (get_prop url "id") in
                  ret (ImportResults (im_urls r) (im_settings r)
                         (im_errors r
                          ++ [ImportError ("URL " +:+ template id) e]))))
    | _ => ret (ImportResults O O [])
    end w
    = (Normal (ImportResults
                 match urls with Some (VArr l) => length l | _ => 0%nat end
                 O []), w1)) as [w1 H1].
  { destruct urls as [[| | | | l |] |]; try by eexists.
    destruct (import_urls_loop h l (ImportResults O O []) w) as (w1 & ->).
    by exists w1. }
  erewrite bind_run by exact H1.
  unfold bind at 1, lift at 1.
  destruct (truthy_prop settings).
  - destruct (import_settings_loop h now
                (map_to_list (spread (default VNull settings)))
                (ImportResults
                   match urls with Some (VArr l) => length l | _ => 0%nat end
                   O []) w1) as (w2 & H2).
    erewrite bind_run by exact H2. unfold ret. eexists _, _.
    split; [reflexivity |]. cbn. by rewrite length_map_to_list.
  - unfold bind, ret. by eexists _, _.
Qed.

(** ** Start, stop and the cache after a restart *)

Lemma prefix_inv p k :
  String.prefix p k = true → k = p +:+ drop_chars (String.length p) k.
Proof.
  revert k. induction p as [| c p IH]; intros k; [by destruct k |].
  destruct k as [| c' k]; [done |]. cbn.
  destruct (Ascii.ascii_dec c c') as [-> | ]; [| done].
  intros Hp. change (String c' p +:+ ?s) with (String c' (p +:+ s)).
  f_equal. by apply IH.
Qed.

Lemma drop_chars_app p s : drop_chars (String.length p) (p +:+ s) = s.
Proof. induction p as [| c p IH]; [by destruct s | exact IH]. Qed.

Lemma replace_first_cache s :
  replace_first "cache_" EmptyString ("cache_" +:+ s) = s.
Proof.
  change ("cache_" +:+ s) with (String "c" ("ache_" +:+ s)).
  cbn [replace_first].
  change (String "c" ("ache_" +:+ s)) with ("cache_" +:+ s).
  by rewrite prefix_app, drop_chars_app.
Qed.

Lemma rehydrate_loop (ks : list string) w :
  for_of ks tt
    (λ _ k,
       let! data := getFromLocalStorage k in
       if truthy data
       then cache_set (replace_first "cache_" EmptyString k) data
       else ret tt) w
  = (Normal tt,
     set_cache
       (foldl (λ c k,
                 if truthy (read_item (localStorage w !! k))
                 then <[replace_first "cache_" EmptyString k :=
                          read_item (localStorage w !! k)]> c
                 else c) (cache w) ks) w).
Proof.
  revert w. induction ks as [| a ks IH]; intros w; cbn [for_of foldl].
  - unfold ret. by rewrite set_cache_same.
  - unfold bind at 1. erewrite bind_run by apply getFromLocalStorage_run.
    destruct (truthy (read_item (localStorage w !! a))).
    + unfold cache_set at 1. by rewrite IH.
    + unfold ret at 1. by rewrite IH.
Qed.

Lemma rehydrate_lookup (l : gmap string item) (ks : list string)
    (c : gmap string value) s :
  (∀ k, k ∈ ks → String.prefix "cache_" k = true) →
  foldl (λ c k,
           if truthy (read_item (l !! k))
           then <[replace_first "cache_" EmptyString k := read_item (l !! k)]> c
           else c) c ks !! s
  = if bool_decide ("cache_" +:+ s ∈ ks)
       && truthy (read_item (l !! ("cache_" +:+ s)))
    then Some (read_item (l !! ("cache_" +:+ s)))
    else c !! s.
Proof.
  revert c. induction ks as [| a ks IH]; intros c Hp; cbn [foldl].
  - by rewrite bool_decide_eq_false_2 by apply not_elem_of_nil.
  - rewrite IH by (intros; apply Hp; by right).
    pose proof (prefix_inv _ _ (Hp a ltac:(left))) as Ha.
    set (t := drop_chars (String.length "cache_") a) in Ha.
    clearbody t. subst a. rewrite replace_first_cache.
    destruct (decide (t = s)) as [-> | Hts].
    + rewrite (bool_decide_eq_true_2 (_ ∈ _ :: ks)) by left. cbn [andb].
      destruct (truthy (read_item (l !! ("cache_" +:+ s)))) eqn:Ht.
      * rewrite andb_true_r. destruct (bool_decide _); [done |].
        by rewrite lookup_insert_eq.
      * by rewrite andb_false_r.
    + assert (bool_decide ("cache_" +:+ s ∈ ("cache_" +:+ t) :: ks)
              = bool_decide ("cache_" +:+ s ∈ ks)) as ->.
      { apply bool_decide_ext. rewrite elem_of_cons.
        split; [| by right]. intros [Heq%key_string_app_inj | ?]; [| done].
        by destruct Hts. }
      destruct (_ && _); [done |].
      destruct (truthy (read_item (l !! ("cache_" +:+ t)))); [| done].
      by rewrite lookup_insert_ne.
Qed.

Lemma loadCacheFromLocalStorage_run w :
  ∃ c', loadCacheFromLocalStorage w = (Normal tt, set_cache c' w)
    ∧ ∀ s, c' !! s
           = if truthy (read_item (localStorage w !! ("cache_" +:+ s)))
             then Some (read_item (localStorage w !! ("cache_" +:+ s)))
             else cache w !! s.
Proof.
  eexists. split.
  - unfold loadCacheFromLocalStorage, try_catch. rewrite bind_get_world.
    erewrite bind_run
      by apply (collect_keys_loop
                  (λ k, negb (String.eqb k EmptyString)
                        && String.prefix "cache_" k)).
    by rewrite rehydrate_loop.
  - intros s. cbn [app]. rewrite rehydrate_lookup.
    2:{ intros k [Hk _]%list_elem_of_filter. by apply andb_prop in Hk as [_ Hk]. }
    case_bool_decide as Hin; [done |]. cbn [andb].
    destruct (localStorage w !! ("cache_" +:+ s)) as [i |] eqn:Hl; [| done].
    exfalso. apply Hin. apply list_elem_of_filter. split.
    + by rewrite prefix_app.
    + apply list_elem_of_fmap. exists ("cache_" +:+ s, i).
      split; [done |]. by apply elem_of_map_to_list.
Qed.

(** X16.  [loadCacheFromLocalStorage] never throws and changes nothing but
    the memory cache: for every name, the [localStorage] item under
    [cache_] followed by the name, when it parses to a truthy value, is in
    the memory cache under the name afterwards, and every other name keeps
    what it had. *)
Theorem loadCacheFromLocalStorage_rehydrates (w : world) :
  ∃ w', loadCacheFromLocalStorage w = (Normal tt, w')
    ∧ db w' = db w ∧ localStorage w' = localStorage w
    ∧ compressionEnabled w' = compressionEnabled w
    ∧ ∀ name, cache w' !! name
              = match localStorage w !! ("cache_" +:+ name) with
                | Some (Json v) => if truthy v then Some v else cache w !! name
                | _ => cache w !! name
                end.
Proof.
  destruct (loadCacheFromLocalStorage_run w) as (c' & Hrun & Hc).
  exists (set_cache c' w). split; [exact Hrun |].
  split; [done |]. split; [done |]. split; [done |].
  intros name. cbn. rewrite Hc.
  by destruct (localStorage w !! ("cache_" +:+ name)) as [[v | t] |].
Qed.

(** X17.  A cache entry across a restart.  After a [setCache] that
    answered [true] on a manager with a database, [destroy] followed by an
    [init] that reopens the same database leaves the manager initialised
    with an empty memory cache for the key, unless [localStorage] holds an
    item [cache_] followed by the key; [getCache] then goes to IndexedDB
    and honours the expiry: the payload strictly before it, and from the
    expiry instant on [null], with the entry removed from the cache
    store. *)
Theorem cache_entry_after_restart
    (h : host) (k : string) (data : value) (ttl now now' : Z)
    (w w1 : world) (d1 : IDB) (estimate : option (completion value))
    (quota : option value) :
  setCache h k data ttl now w = (Normal true, w1) →
  db w1 = Some d1 →
  localStorage w1 !! ("cache_" +:+ k) = None →
  let m := init (Normal d1) estimate (destroy (Manager w1 true quota)) in
  initialized m = true
  ∧ db (state m) = Some d1
  ∧ cache (state m) !! k = None
  ∧ ∃ w2, getCache k now' (state m)
          = (Normal (if now' <? now + ttl then data else VNull), w2)
      ∧ (now' < now + ttl → cache w2 !! k = Some data ∧ db w2 = Some d1)
      ∧ (now + ttl ≤ now' →
         cache w2 !! k = None
         ∧ ∃ d2, db w2 = Some d2 ∧ cache_store d2 !! k = None).
Proof.
  intros Hset Hd1 Hl m.
  destruct (setCache_true _ _ _ _ _ _ _ Hset) as [_ Hstore].
  specialize (Hstore d1 Hd1).
  set (w0 := set_db d1 (World None ∅ (compressionEnabled w1) (localStorage w1))).
  assert (state m = w0 ∨ state m = (loadCacheFromLocalStorage w0).2) as Hm.
  { unfold m, init, destroy. cbn [initialized state storageQuota].
    fold w0. destruct estimate as [[q | e] |]; cbn [state]; auto. }
  assert (initialized m = true) as Hi.
  { unfold m, init, destroy. cbn [initialized].
    by destruct estimate as [[q | e] |]. }
  assert (db (state m) = Some d1 ∧ cache (state m) !! k = None) as [Hd Hc].
  { destruct Hm as [-> | ->]; [done |].
    destruct (loadCacheFromLocalStorage_run w0) as (c' & -> & Hc').
    split; [done |]. cbn. rewrite Hc'. unfold w0. cbn. by rewrite Hl. }
  split; [exact Hi |]. split; [exact Hd |]. split; [exact Hc |].
  rewrite (getCache_durable k now' (state m) d1 _ Hc Hd Hstore).
  cbn [ce_expiry ce_data].
  destruct (now' <? now + ttl) eqn:Hlt.
  - eexists. split; [reflexivity |]. split.
    + intros _. cbn. by rewrite lookup_insert_eq.
    + intros Hge. apply Z.ltb_lt in Hlt. lia.
  - eexists. split; [reflexivity |]. split.
    + intros Hlt'. apply Z.ltb_ge in Hlt. lia.
    + intros _. split; [exact Hc |]. eexists. split; [reflexivity |].
      cbn. by rewrite lookup_delete_eq.
Qed.

Lemma cache_entry_after_restart_witness :
  setCache browser "token" (VStr "payload") 1000 0 fresh_world
  = (Normal true,
     (setCache browser "token" (VStr "payload") 1000 0 fresh_world).2)
  ∧ ∃ w2, getCache "token" 1000
            (state (init (Normal (Idb ∅ ∅ ∅ ∅
                             {[ "token" := CacheEntry "token" (VStr "payload")
                                              0 1000 ]}))
                      None
                      (destroy (Manager
                         (setCache browser "token" (VStr "payload") 1000 0
                            fresh_world).2 true None))))
          = (Normal VNull, w2).
Proof.
  split; [vm_compute; reflexivity |].
  destruct (cache_entry_after_restart browser "token" (VStr "payload") 1000 0
              1000 fresh_world
              (setCache browser "token" (VStr "payload") 1000 0 fresh_world).2
              (Idb ∅ ∅ ∅ ∅
                 {[ "token" := CacheEntry "token" (VStr "payload") 0 1000 ]})
              None None)
    as (_ & _ & _ & w2 & Hget & _).
  - vm_compute; reflexivity.
  - vm_compute; reflexivity.
  - vm_compute; reflexivity.
  - by exists w2.
Defined.

(** X18.  [setCache] never throws.  It answers [false] only with a
    database that refuses the write, and then nothing has changed, the
    memory cache included; when it answers [true] the payload is in the
    memory cache, the entry with its expiry is in the cache store if there
    is a database, and nothing else has changed. *)
Theorem setCache_outcome
    (h : host) (k : string) (data : value) (ttl now : Z) (w : world) :
  ∃ b w1, setCache h k data ttl now w = (Normal b, w1)
    ∧ (b = false → w1 = w ∧ is_Some (db w))
    ∧ (b = true →
       cache w1 = <[k := data]> (cache w)
       ∧ localStorage w1 = localStorage w
       ∧ compressionEnabled w1 = compressionEnabled w
       ∧ match db w, db w1 with
         | Some d, Some d1 =>
             cache_store d1
             = <[k := CacheEntry k data now (now + ttl)]> (cache_store d)
             ∧ urls d1 = urls d ∧ analytics d1 = analytics d
             ∧ security d1 = security d ∧ settings d1 = settings d
         | None, None => True
         | _, _ => False
         end).
Proof.
  unfold setCache. run.
  destruct w as [[d |] c e l]; cbn.
  - destruct (idb_refuses _ _ _ _); cbn.
    + eexists _, _. split; [reflexivity |]. split; [by eauto | done].
    + eexists _, _. split; [reflexivity |]. split; [done |].
      intros _. by cbn.
  - eexists _, _. split; [reflexivity |]. split; [done |]. intros _. by cbn.
Qed.
